(** * GGN-Sorter: the category updater, embedded and checked

    A shallow embedding of [qbit_category_updater.py].  The file has the
    layers of the script itself:

    - Python text ([pystr]) with the few string and [re] operations used;
    - the category deriver [create_category] and the tracker filter
      [is_gazelle_games_tracker], which are functions, over metadata
      whose fields have the types the script uses them at;
    - [html.unescape], by its algorithm, and the deriver once more on an
      untyped JSON value ([create_category_json]), where a field of
      another type raises;
    - the two HTTP clients and the driver [main], which talk to remote
      services: they are written in a state-and-exception monad over an
      arbitrary [server], and every request, pause and log record is
      appended to a trace.

    The theorems come after the definitions. *)

From Stdlib Require Import List NArith ZArith String Ascii Bool Lia.
From Stdlib Require Import DecimalString.
Import ListNotations.

Set Implicit Arguments.

(* ================================================================== *)
(** * Python text *)
(* ================================================================== *)

(** A Python [str] is a sequence of Unicode code points. *)
Definition pystr := list N.

(** Literals of the script, written as Rocq strings (all of them ASCII). *)
Definition lit (s : string) : pystr := map N_of_ascii (list_ascii_of_string s).

Definition pystr_eqb (a b : pystr) : bool :=
  if list_eq_dec N.eq_dec a b then true else false.

(** What the interpreter and its standard library know beyond ASCII: the
    Unicode character database and the HTML5 entity table.  Neither is
    part of the repository; they stay parameters of the development. *)
Class Runtime := {
  (** [str.isspace] / [\s] on a code point above 127 *)
  unicode_isspace : N -> bool;
  (** [str.isalnum] on a code point above 127 ([\w] is this or an underscore) *)
  unicode_isalnum : N -> bool;
  (** [str.lower] on a string that is not pure ASCII *)
  unicode_lower : pystr -> pystr;
  (** [str.upper] on a string that is not pure ASCII *)
  unicode_upper : pystr -> pystr;
  (** [_charref.sub(_replace_charref, s)], the second line of [html.unescape] *)
  charref_sub : pystr -> pystr
}.

Section Text.
Context {rt : Runtime}.
Local Open Scope N_scope.

Definition between (lo hi c : N) : bool := (lo <=? c) && (c <=? hi).

Definition is_ascii (c : N) : bool := c <? 128.

(** [str.isspace], also the class [\s] of [re] on [str] patterns.  Below
    128 these are TAB, LF, VT, FF, CR, the four separators FS..US and the
    space. *)
Definition isspace (c : N) : bool :=
  if is_ascii c then between 9 13 c || between 28 32 c
  else unicode_isspace c.

(** The class [\w] of [re]: alphanumeric or underscore. *)
Definition isword (c : N) : bool :=
  if is_ascii c
  then between 48 57 c || between 65 90 c || between 97 122 c || (c =? 95)
  else unicode_isalnum c.

Definition ascii_lower (c : N) : N := if between 65 90 c then c + 32 else c.
Definition ascii_upper (c : N) : N := if between 97 122 c then c - 32 else c.

(** [s.lower()] and [s.upper()] *)
Definition lower (s : pystr) : pystr :=
  if forallb is_ascii s then map ascii_lower s else unicode_lower s.
Definition upper (s : pystr) : pystr :=
  if forallb is_ascii s then map ascii_upper s else unicode_upper s.

Fixpoint lstrip (s : pystr) : pystr :=
  match s with
  | [] => []
  | c :: rest => if isspace c then lstrip rest else s
  end.

Definition rstrip (s : pystr) : pystr := rev (lstrip (rev s)).

(** [s.strip()] *)
Definition strip (s : pystr) : pystr := rstrip (lstrip s).

(** [s.rstrip(chars)] for a single character *)
Fixpoint lstrip_char (x : N) (s : pystr) : pystr :=
  match s with
  | [] => []
  | c :: rest => if c =? x then lstrip_char x rest else s
  end.
Definition rstrip_char (x : N) (s : pystr) : pystr := rev (lstrip_char x (rev s)).

Fixpoint startswith (prefix s : pystr) : bool :=
  match prefix, s with
  | [], _ => true
  | _ :: _, [] => false
  | a :: prefix', b :: s' => (a =? b) && startswith prefix' s'
  end.

(** [needle in hay] for two strings: the substring test *)
Fixpoint contains (needle hay : pystr) : bool :=
  startswith needle hay ||
  match hay with
  | [] => false
  | _ :: rest => contains needle rest
  end.

(** [c in set] for one character *)
Definition char_in (c : N) (set : pystr) : bool := existsb (N.eqb c) set.

(** The nine characters of the class in the two sanitising substitutions:
    less-than, greater-than, colon, double quote, slash, backslash, bar,
    question mark and star. *)
Definition illegal_chars : pystr := lit "<>:" ++ [34] ++ lit "/\|?*".

(** [re.sub] of that class by the empty string *)
Definition remove_illegal (s : pystr) : pystr :=
  filter (fun c => negb (char_in c illegal_chars)) s.

(** Whether the text after a ['<'] completes a match of [<[^>]+>]: at
    least one character other than ['>'], then a ['>'] somewhere. *)
Definition opens_tag (rest : pystr) : bool :=
  match rest with
  | [] => false
  | c :: _ => negb (c =? 62) && char_in 62 rest
  end.

(** [re.sub(r'<[^>]+>', '', s)], scanning left to right; [in_tag] holds
    while the scan is inside a match, which ends at the next ['>']. *)
Fixpoint sub_tags (in_tag : bool) (s : pystr) : pystr :=
  match s with
  | [] => []
  | c :: rest =>
      if in_tag then sub_tags (negb (c =? 62)) rest
      else if (c =? 60) && opens_tag rest then sub_tags true rest
      else c :: sub_tags false rest
  end.

(** [re.sub(r'\s+', ' ', s)]; [in_run] holds while the scan is inside a
    run of white space that has already produced its single space. *)
Fixpoint sub_spaces (in_run : bool) (s : pystr) : pystr :=
  match s with
  | [] => []
  | c :: rest =>
      if isspace c
      then (if in_run then sub_spaces true rest else 32 :: sub_spaces true rest)
      else c :: sub_spaces false rest
  end.

(** The characters the last substitution keeps beside [\w] and [\s] *)
Definition kept_punctuation : pystr := lit "-.()[]&'".

(** The complement of the class [[^\w\s\-\.\(\)\[\]&\']] *)
Definition basic (c : N) : bool :=
  isword c || isspace c || char_in c kept_punctuation.

(** [re.sub(r'[^\w\s\-\.\(\)\[\]&\']', '', s)] *)
Definition keep_basic (s : pystr) : pystr := filter basic s.

(** [html.unescape(s)]: a string without ['&'] is returned as it is *)
Definition html_unescape (s : pystr) : pystr :=
  if negb (char_in 38 s) then s else charref_sub s.

End Text.

(** A character reference in its closed form: an ampersand, a body, a
    semicolon ([&amp;], [&#39;], [&#x27;]). *)
Definition has_character_reference (s : pystr) : Prop :=
  exists before body after : pystr, s = (before ++ 38 :: body ++ 59 :: after)%N.

(** [str(n)] for an integer *)
Definition str_of_int (z : Z) : pystr := lit (NilZero.string_of_int (Z.to_int z)).

(* ================================================================== *)
(** * Remote metadata *)
(* ================================================================== *)

(** The catalogue answers in JSON.  The model keeps the keys the script
    reads, with the types it uses them at, and the names of the other
    keys of a dictionary where its truth value is tested. *)

(** A value that is only formatted into the category: text or a number. *)
Inductive scalar :=
| Text (s : pystr)
| Int (z : Z).

(** [f"{v}"] *)
Definition format (v : scalar) : pystr :=
  match v with
  | Text s => s
  | Int z => str_of_int z
  end.

(** The ['group'] dictionary *)
Record group_dict := {
  group_platform : option pystr;
  group_name : option pystr;
  group_year : option scalar
}.

(** The ['torrent'] dictionary *)
Record torrent_dict := {
  torrent_gameDOXType : option pystr;
  torrent_other_keys : list pystr
}.

(** The ['response'] dictionary, the [api_data] of the script *)
Record api_dict := {
  api_group : option group_dict;
  api_torrent : option torrent_dict;
  api_other_keys : list pystr
}.

(** [d.get(key, default)] on a key the model holds as an option *)
Definition get {A : Type} (value : option A) (default : A) : A :=
  match value with
  | Some v => v
  | None => default
  end.

Definition empty_group : group_dict :=
  {| group_platform := None; group_name := None; group_year := None |}.
Definition empty_torrent : torrent_dict :=
  {| torrent_gameDOXType := None; torrent_other_keys := [] |}.
Definition empty_api : api_dict :=
  {| api_group := None; api_torrent := None; api_other_keys := [] |}.

Definition is_some {A : Type} (o : option A) : bool :=
  match o with Some _ => true | None => false end.

Definition nonempty {A : Type} (l : list A) : bool :=
  match l with [] => false | _ :: _ => true end.

(** Truth value of a dictionary: it has a key. *)
Definition torrent_truthy (d : torrent_dict) : bool :=
  is_some (torrent_gameDOXType d) || nonempty (torrent_other_keys d).

Definition api_truthy (d : api_dict) : bool :=
  is_some (api_group d) || is_some (api_torrent d) || nonempty (api_other_keys d).

(** [not api_data] fails for [None] and for the empty dictionary. *)
Definition truthy_data (api_data : option api_dict) : bool :=
  match api_data with
  | None => false
  | Some d => api_truthy d
  end.

(* ================================================================== *)
(** * The category deriver *)
(* ================================================================== *)

Section Deriver.
Context {rt : Runtime}.

(** Lines 256-266: the assignment made under [if game_dox_type:], and the
    empty string [subcategory] starts with otherwise. *)
Definition subcategory_by_type (game_dox_type : pystr) : pystr :=
  if nonempty game_dox_type then
    if pystr_eqb (lower game_dox_type) (lit "update") then lit "/Update"
    else if pystr_eqb (lower game_dox_type) (lit "dlc") then lit "/DLC"
    else if pystr_eqb (lower game_dox_type) (lit "patch") then lit "/Patch"
    else lit "/" ++ remove_illegal game_dox_type
  else [].

(** Lines 251-272.  Inside [if torrent_data:] the subcategory is assigned
    twice: by the case analysis above, and then, on lines 269-270 and
    whatever the first assignment was, from the sanitised field again. *)
Definition subcategory (torrent_data : torrent_dict) : pystr :=
  if torrent_truthy torrent_data then
    let game_dox_type := strip (get (torrent_gameDOXType torrent_data) []) in
    let subcategory := subcategory_by_type game_dox_type in
    let clean_dox_type := remove_illegal game_dox_type in
    let subcategory := lit "/" ++ clean_dox_type in
    subcategory
  else [].

(** Lines 275-284, in the order of the dictionary display, which is the
    order [items()] yields. *)
Definition manufacturer_map : list (pystr * pystr) :=
  [ (lit "windows", lit "Microsoft"); (lit "pc", lit "Microsoft");
    (lit "xbox", lit "Microsoft"); (lit "xbox 360", lit "Microsoft");
    (lit "xbox one", lit "Microsoft"); (lit "xbox series x", lit "Microsoft");
    (lit "playstation", lit "Sony"); (lit "playstation 2", lit "Sony");
    (lit "playstation 3", lit "Sony"); (lit "playstation 4", lit "Sony");
    (lit "playstation 5", lit "Sony"); (lit "playstation portable", lit "Sony");
    (lit "playstation vita", lit "Sony");
    (lit "switch", lit "Nintendo"); (lit "nintendo 3ds", lit "Nintendo");
    (lit "nintendo ds", lit "Nintendo"); (lit "wii", lit "Nintendo");
    (lit "wii u", lit "Nintendo"); (lit "gamecube", lit "Nintendo");
    (lit "linux", lit "Linux"); (lit "mac", lit "Apple");
    (lit "macos", lit "Apple"); (lit "ios", lit "Apple");
    (lit "android", lit "Google"); (lit "steam deck", lit "Valve") ].

(** Lines 289-292: the loop over the table, left at the first hit. *)
Fixpoint lookup_manufacturer (items : list (pystr * pystr))
    (platform_lower manufacturer : pystr) : pystr :=
  match items with
  | [] => manufacturer
  | (platform_key, mfg) :: rest =>
      if contains platform_key platform_lower then mfg
      else lookup_manufacturer rest platform_lower manufacturer
  end.

(** Lines 286-292 *)
Definition manufacturer (platform : pystr) : pystr :=
  let platform_lower := lower platform in
  lookup_manufacturer manufacturer_map platform_lower (lit "Unknown").

(** Lines 296-309 *)
Definition clean_name (game_name : pystr) : pystr :=
  let decoded_name := html_unescape game_name in
  let clean_name := sub_tags false decoded_name in
  let clean_name := remove_illegal clean_name in
  let clean_name := strip (sub_spaces false clean_name) in
  keep_basic clean_name.

(** [create_category(api_data, torrent_hash)]; [None] is Python's [None]. *)
Definition create_category (api_data : option api_dict)
    (torrent_hash : option pystr) : option pystr :=
  match api_data with
  | None => None
  | Some data =>
      if negb (api_truthy data) then None
      else
        let group := get (api_group data) empty_group in
        let torrent_data := get (api_torrent data) empty_torrent in
        let platform := strip (get (group_platform group) []) in
        let game_name := get (group_name group) (lit "Unknown Game") in
        let year := get (group_year group) (Text (lit "Unknown")) in
        Some (lit "Games/" ++ manufacturer platform ++ lit "/" ++ platform
              ++ lit "/" ++ clean_name game_name ++ lit " (" ++ format year
              ++ lit ")" ++ subcategory torrent_data)
  end.

End Deriver.

(** How often a character occurs in a text *)
Definition occurrences (c : N) (s : pystr) : nat :=
  List.length (filter (N.eqb c) s).

(* ================================================================== *)
(** * The tracker filter *)
(* ================================================================== *)

(** An entry of the download client's tracker list *)
Record tracker := { tracker_url : option pystr }.

Section Filter.
Context {rt : Runtime}.

(** The loop of [is_gazelle_games_tracker], left at the first hit *)
Fixpoint any_gazelle (trackers : list tracker) : bool :=
  match trackers with
  | [] => false
  | tracker :: rest =>
      let url := get (tracker_url tracker) [] in
      if contains (lit "gazellegames.net") (lower url) then true
      else any_gazelle rest
  end.

(** [is_gazelle_games_tracker(trackers)]; [None] and the empty list are
    both false under [not trackers]. *)
Definition is_gazelle_games_tracker (trackers : option (list tracker)) : bool :=
  match trackers with
  | None => false
  | Some l => if negb (nonempty l) then false else any_gazelle l
  end.

End Filter.

(* ================================================================== *)
(** * Requests, replies and the trace *)
(* ================================================================== *)

(** An item of [/api/v2/torrents/info] *)
Record torrent := {
  info_hash : option pystr;
  info_name : option pystr;
  info_category : option pystr;
  info_tags : option pystr
}.

(** The JSON body of the catalogue's answer *)
Record envelope := {
  env_status : option pystr;
  env_response : option api_dict;
  env_error : option pystr
}.

(** What [requests] raises when no response arrives *)
Inductive transport_error :=
| ConnectionError
| ReadTimeout.

Inductive exn :=
| RequestException (t : transport_error)
| JSONDecodeError
| AttributeError.

(** [except requests.exceptions.RequestException]; the decode error of
    [response.json()] is one of its subclasses. *)
Definition is_request_exception (e : exn) : bool :=
  match e with
  | RequestException _ | JSONDecodeError => true
  | AttributeError => false
  end.

Definition is_json_decode_error (e : exn) : bool :=
  match e with
  | JSONDecodeError => true
  | _ => false
  end.

(** [except Exception] *)
Definition is_exception (e : exn) : bool := true.

(** A response object; [json] is [None] when the body does not parse. *)
Record response (A : Type) := {
  status_code : Z;
  text : pystr;
  json : option A
}.

Inductive reply (A : Type) :=
| Answers (r : response A)
| Fails (t : transport_error).

Arguments Fails {A} t.

(** The requests the script sends, with the data it posts *)
Inductive call :=
| auth_login (username password : pystr)
| torrents_info
| torrents_trackers (hash : option pystr)
| torrents_categories
| torrents_createCategory (category savePath : pystr)
| torrents_setCategory (hashes : option pystr) (category : pystr)
| torrents_addTags (hashes : option pystr) (tags : pystr)
| gazelle_torrent (key hash : pystr).

(** The two remote services: each endpoint answers from the state [W]
    of the world and may change it. *)
Record server (W : Type) := {
  on_login : pystr -> pystr -> W -> reply unit * W;
  on_info : W -> reply (list torrent) * W;
  on_trackers : option pystr -> W -> reply (list tracker) * W;
  on_categories : W -> reply (list pystr) * W;
  on_createCategory : pystr -> pystr -> W -> reply unit * W;
  on_setCategory : option pystr -> pystr -> W -> reply unit * W;
  on_addTags : option pystr -> pystr -> W -> reply unit * W;
  on_gazelle : pystr -> pystr -> W -> reply envelope * W
}.

Inductive level := debug | info | warning | error.

(** The log records of the clients and the driver, one constructor per
    [logger] call, carrying the values its message interpolates.  (The
    deriver's own debug records are left out: [create_category] is kept a
    function.) *)
Inductive message :=
(* QBittorrentClient *)
| LoggedIn
| LoginFailed (status : Z) (body : pystr)
| LoginConnectionError (e : exn)
| NotLoggedIn
| Retrieved (unprocessed total : nat)
| GetTorrentsFailed (status : Z)
| CategoryMissing (category : pystr)
| CategoryCreated (category : pystr)
| CreateCategoryFailed (category : pystr)
(* GazelleGamesAPI *)
| Querying (hash : pystr)
| ApiResponse (status : Z) (content_length : nat)
| DataRetrieved (hash : pystr)
| ApiError (hash : pystr) (error_text : pystr)
| FullResponse (body : pystr)
| JsonDecodeError (hash : pystr) (e : exn)
| ResponseText (body : pystr)
| HttpError (status : Z) (hash : pystr)
| ResponseHeaders
| QueryException (hash : option pystr) (e : exn)
(* main *)
| MissingConfiguration
| TestingApiKey (key_prefix : pystr)
| ApiKeyConfigured
| LoginToClientFailed
| FoundCategories (names : list pystr)
| NoCategories
| RetrieveFailed
| Processing (name : pystr)
| NoApiData (hash : option pystr)
| NoCategory (name : pystr)
| GroupKeys
| GroupPlatform (platform : pystr)
| GroupName (name : pystr)
| CategoryDerived (category : pystr)
| CategoryUpdated (category : pystr)
| TagAdded (name : pystr)
| TagFailed (name : pystr)
| UpdateFailed (name : pystr)
| CategoryException (name : pystr) (e : exn)
| ApiDataKeys
| Summary (updated_count : nat).

Inductive event :=
| Request (c : call)
| Sleep (seconds : nat)
| Log (lv : level) (m : message).

(* ================================================================== *)
(** * The monad of the clients and the driver *)
(* ================================================================== *)

Inductive outcome (A : Type) :=
| Returns (a : A)
| Raised (e : exn).

Arguments Raised {A} e.

(** The world, the [logged_in] attribute of the download client's
    adapter, and everything done so far, oldest first. *)
Record state (W : Type) := {
  world : W;
  logged_in : bool;
  trace : list event
}.

Definition M (W A : Type) : Type := state W -> outcome A * state W.

Section Monad.
Variable W : Type.

Definition ret {A : Type} (a : A) : M W A := fun s => (Returns a, s).

Definition bind {A B : Type} (m : M W A) (k : A -> M W B) : M W B := fun s =>
  match m s with
  | (Returns a, s') => k a s'
  | (Raised e, s') => (Raised e, s')
  end.

Definition raise {A : Type} (e : exn) : M W A := fun s => (Raised e, s).

(** [try: body except <class> as e: handler]; effects of the body that
    came before the exception stay. *)
Definition try_except {A : Type} (caught : exn -> bool) (body : M W A)
    (handler : exn -> M W A) : M W A := fun s =>
  match body s with
  | (Returns a, s') => (Returns a, s')
  | (Raised e, s') => if caught e then handler e s' else (Raised e, s')
  end.

Definition emit (ev : event) : M W unit := fun s =>
  (Returns tt,
   {| world := world s; logged_in := logged_in s; trace := trace s ++ [ev] |}).

Definition log (lv : level) (m : message) : M W unit := emit (Log lv m).

(** [time.sleep(seconds)] *)
Definition sleep (seconds : nat) : M W unit := emit (Sleep seconds).

Definition get_logged_in : M W bool := fun s => (Returns (logged_in s), s).

Definition set_logged_in (b : bool) : M W unit := fun s =>
  (Returns tt, {| world := world s; logged_in := b; trace := trace s |}).

(** [session.get(...)] / [session.post(...)]: the request goes on the
    trace, the endpoint answers, and no answer raises. *)
Definition request {A : Type} (c : call) (endpoint : W -> reply A * W)
    : M W (response A) := fun s =>
  let (r, w) := endpoint (world s) in
  let s' := {| world := w; logged_in := logged_in s;
               trace := trace s ++ [Request c] |} in
  match r with
  | Answers resp => (Returns resp, s')
  | Fails t => (Raised (RequestException t), s')
  end.

(** [response.json()] *)
Definition json_of {A : Type} (r : response A) : M W A :=
  match json r with
  | Some v => ret v
  | None => raise JSONDecodeError
  end.

End Monad.

Arguments ret {W A} a.
Arguments raise {W A} e.
Arguments get_logged_in {W}.
Arguments set_logged_in {W} b.
Arguments log {W} lv m.
Arguments sleep {W} seconds.
Arguments emit {W} ev.

Notation "x <- m ;; k" := (bind m (fun x => k))
  (at level 61, m at next level, right associativity).
Notation "m ;; k" := (bind m (fun _ => k))
  (at level 61, right associativity).

(* ================================================================== *)
(** * The clients and the driver *)
(* ================================================================== *)

Record QBittorrentClient := {
  host : pystr;
  username : pystr;
  password : pystr
}.

Record GazelleGamesAPI := { api_key : pystr }.

(** The four settings, as [os.getenv] returns them *)
Record environ := {
  QB_HOST : option pystr;
  QB_USERNAME : option pystr;
  QB_PASSWORD : option pystr;
  GGN_API_KEY : option pystr
}.

(** The processed marker *)
Definition GGn_Sorted : pystr := lit "GGn-Sorted".

(** Truth value of an optional string *)
Definition truthy_str (v : option pystr) : bool :=
  match v with
  | None => false
  | Some s => nonempty s
  end.

(** Truth value of an optional list *)
Definition truthy_list {A : Type} (v : option (list A)) : bool :=
  match v with
  | None => false
  | Some l => nonempty l
  end.

Section Program.
Context {rt : Runtime}.
Variable W : Type.
Variable srv : server W.

Local Open Scope Z_scope.

(* ------------------------------------------------------------------ *)
(** ** QBittorrentClient *)

(** [login]: lines 34-55 *)
Definition login (self : QBittorrentClient) : M W bool :=
  try_except is_request_exception
    (response <- request (auth_login (username self) (password self))
                   (on_login srv (username self) (password self)) ;;
     if (status_code response =? 200) && pystr_eqb (text response) (lit "Ok.")
     then set_logged_in true ;; log info LoggedIn ;; ret true
     else log error (LoginFailed (status_code response) (text response)) ;;
          ret false)
    (fun e => log error (LoginConnectionError e) ;; ret false).

(** Lines 68-72: the items whose [tags] text does not contain the marker *)
Definition unprocessed (all_torrents : list torrent) : list torrent :=
  filter (fun torrent =>
            let tags := get (info_tags torrent) [] in
            negb (contains GGn_Sorted tags))
         all_torrents.

(** [get_torrents]: lines 57-78 *)
Definition get_torrents (self : QBittorrentClient)
    : M W (option (list torrent)) :=
  authenticated <- get_logged_in ;;
  if negb authenticated then log error NotLoggedIn ;; ret None
  else
    response <- request torrents_info (on_info srv) ;;
    if status_code response =? 200 then
      all_torrents <- json_of response ;;
      let filtered_torrents := unprocessed all_torrents in
      log info (Retrieved (List.length filtered_torrents) (List.length all_torrents)) ;;
      ret (Some filtered_torrents)
    else
      log error (GetTorrentsFailed (status_code response)) ;;
      ret None.

(** [get_torrent_trackers]: lines 93-104 *)
Definition get_torrent_trackers (self : QBittorrentClient)
    (hash : option pystr) : M W (option (list tracker)) :=
  authenticated <- get_logged_in ;;
  if negb authenticated then ret None
  else
    response <- request (torrents_trackers hash) (on_trackers srv hash) ;;
    if status_code response =? 200
    then (v <- json_of response ;; ret (Some v))
    else ret None.

(** [get_categories]: lines 106-116 *)
Definition get_categories (self : QBittorrentClient)
    : M W (option (list pystr)) :=
  authenticated <- get_logged_in ;;
  if negb authenticated then ret None
  else
    response <- request torrents_categories (on_categories srv) ;;
    if status_code response =? 200
    then (v <- json_of response ;; ret (Some v))
    else ret None.

(** [QBittorrentClient.create_category]: lines 118-129; [save_path]
    defaults to the empty string. *)
Definition client_create_category (self : QBittorrentClient)
    (category save_path : pystr) : M W bool :=
  authenticated <- get_logged_in ;;
  if negb authenticated then ret false
  else
    response <- request (torrents_createCategory category save_path)
                  (on_createCategory srv category save_path) ;;
    ret (status_code response =? 200).

(** [set_torrent_category]: lines 131-159 *)
Definition set_torrent_category (self : QBittorrentClient)
    (hash : option pystr) (category : pystr) : M W bool :=
  authenticated <- get_logged_in ;;
  if negb authenticated then ret false
  else
    response <- request (torrents_setCategory hash category)
                  (on_setCategory srv hash category) ;;
    if status_code response =? 409 then
      log info (CategoryMissing category) ;;
      created <- client_create_category self category [] ;;
      if created then
        log info (CategoryCreated category) ;;
        response <- request (torrents_setCategory hash category)
                      (on_setCategory srv hash category) ;;
        ret (status_code response =? 200)
      else
        log error (CreateCategoryFailed category) ;;
        ret false
    else ret (status_code response =? 200).

(** [add_torrent_tags]: lines 161-172 *)
Definition add_torrent_tags (self : QBittorrentClient)
    (hash : option pystr) (tags : pystr) : M W bool :=
  authenticated <- get_logged_in ;;
  if negb authenticated then ret false
  else
    response <- request (torrents_addTags hash tags)
                  (on_addTags srv hash tags) ;;
    ret (status_code response =? 200).

(* ------------------------------------------------------------------ *)
(** ** GazelleGamesAPI *)

(** Lines 199-214: what is done with a response that arrived *)
Definition read_response (torrent_hash : pystr) (response : response envelope)
    : M W (option api_dict) :=
  if status_code response =? 200 then
    try_except is_json_decode_error
      (data <- json_of response ;;
       if match env_status data with
          | Some s => pystr_eqb s (lit "success")
          | None => false
          end
       then log info (DataRetrieved torrent_hash) ;;
            ret (Some (get (env_response data) empty_api))
       else log error (ApiError torrent_hash
                         (get (env_error data) (lit "Unknown error"))) ;;
            log error (FullResponse (firstn 500 (text response))) ;;
            ret None)
      (fun e => log error (JsonDecodeError torrent_hash e) ;;
                log error (ResponseText (firstn 200 (text response))) ;;
                ret None)
  else
    log error (HttpError (status_code response) torrent_hash) ;;
    log error ResponseHeaders ;;
    log error (ResponseText (firstn 200 (text response))) ;;
    ret None.

(** [get_torrent]: lines 183-219.  A hash that is [None] has no [upper]:
    the attribute error is raised, and caught, inside the [try]. *)
Definition get_torrent (self : GazelleGamesAPI) (torrent_hash : option pystr)
    : M W (option api_dict) :=
  sleep 2 ;;
  try_except is_exception
    (match torrent_hash with
     | None => raise AttributeError
     | Some h =>
         let torrent_hash := upper h in
         log info (Querying torrent_hash) ;;
         response <- request (gazelle_torrent (api_key self) torrent_hash)
                       (on_gazelle srv (api_key self) torrent_hash) ;;
         log info (ApiResponse (status_code response)
                     (List.length (text response))) ;;
         read_response torrent_hash response
     end)
    (fun e => log error (QueryException (option_map upper torrent_hash) e) ;;
              ret None).

(* ------------------------------------------------------------------ *)
(** ** main *)

(** Lines 386-395: the branch for a category that is [None] or empty *)
Definition report_no_category (name : pystr) (api_data : option api_dict)
    : M W unit :=
  log warning (NoCategory name) ;;
  let group := get (api_group (get api_data empty_api)) empty_group in
  log debug GroupKeys ;;
  match group_platform group with
  | Some p => log debug (GroupPlatform p)
  | None => ret tt
  end ;;
  match group_name group with
  | Some n => log debug (GroupName n)
  | None => ret tt
  end.

(** Lines 384-414: the [try] statement of the loop body.  It returns the
    value [updated_count] has after it; [continue] ends it early. *)
Definition categorise (qb_client : QBittorrentClient) (name : pystr)
    (hash_id : option pystr) (api_data : option api_dict)
    (updated_count : nat) : M W nat :=
  try_except is_exception
    (let category := create_category api_data hash_id in
     if negb (truthy_str category) then
       report_no_category name api_data ;;
       ret updated_count
     else
       let category := get category [] in
       log info (CategoryDerived category) ;;
       updated <- set_torrent_category qb_client hash_id category ;;
       if updated then
         log info (CategoryUpdated category) ;;
         tagged <- add_torrent_tags qb_client hash_id GGn_Sorted ;;
         (if tagged then log debug (TagAdded name)
          else log warning (TagFailed name)) ;;
         ret (updated_count + 1)%nat
       else
         log error (UpdateFailed name) ;;
         ret updated_count)
    (fun e => log error (CategoryException name e) ;;
              log debug ApiDataKeys ;;
              ret updated_count).

(** Lines 361-414: the body of the loop over the torrents *)
Definition process (qb_client : QBittorrentClient) (ggn_client : GazelleGamesAPI)
    (torrent : torrent) (updated_count : nat) : M W nat :=
  let hash_id := info_hash torrent in
  let name := get (info_name torrent) (lit "Unknown") in
  let current_category := get (info_category torrent) [] in
  trackers <- get_torrent_trackers qb_client hash_id ;;
  if is_gazelle_games_tracker trackers then
    log info (Processing name) ;;
    sleep 1 ;;
    api_data <- get_torrent ggn_client hash_id ;;
    if negb (truthy_data api_data) then
      log warning (NoApiData hash_id) ;;
      ret updated_count
    else categorise qb_client name hash_id api_data updated_count
  else ret updated_count.

(** [for torrent in torrents: ...] *)
Fixpoint for_each (qb_client : QBittorrentClient) (ggn_client : GazelleGamesAPI)
    (torrents : list torrent) (updated_count : nat) : M W nat :=
  match torrents with
  | [] => ret updated_count
  | torrent :: rest =>
      updated_count <- process qb_client ggn_client torrent updated_count ;;
      for_each qb_client ggn_client rest updated_count
  end.

(** Lines 351-416: from the listing to the summary *)
Definition sort_torrents (qb_client : QBittorrentClient)
    (ggn_client : GazelleGamesAPI) : M W unit :=
  torrents <- get_torrents qb_client ;;
  if negb (truthy_list torrents) then
    log error RetrieveFailed
  else
    updated_count <- for_each qb_client ggn_client (get torrents []) 0%nat ;;
    log info (Summary updated_count).

(** [main]: lines 317-416.  A new adapter starts with [logged_in] false. *)
Definition main (env : environ) : M W unit :=
  if negb (truthy_str (QB_HOST env) && truthy_str (QB_USERNAME env)
           && truthy_str (QB_PASSWORD env) && truthy_str (GGN_API_KEY env))
  then log error MissingConfiguration
  else
    let qb_client := {| host := rstrip_char 47 (get (QB_HOST env) []);
                        username := get (QB_USERNAME env) [];
                        password := get (QB_PASSWORD env) [] |} in
    let ggn_client := {| api_key := get (GGN_API_KEY env) [] |} in
    set_logged_in false ;;
    log info (TestingApiKey (firstn 8 (api_key ggn_client))) ;;
    log info ApiKeyConfigured ;;
    ok <- login qb_client ;;
    if negb ok then log error LoginToClientFailed
    else
      categories <- get_categories qb_client ;;
      (if truthy_list categories
       then log info (FoundCategories (get categories []))
       else log info NoCategories) ;;
      sort_torrents qb_client ggn_client.

End Program.

(* ================================================================== *)
(** * Reading states and traces *)
(* ================================================================== *)

(** The state once one more event has happened *)
Definition after (W : Type) (ev : event) (s : state W) : state W :=
  {| world := world s; logged_in := logged_in s; trace := trace s ++ [ev] |}.

(** The state with the world replaced *)
Definition in_world (W : Type) (w : W) (s : state W) : state W :=
  {| world := w; logged_in := logged_in s; trace := trace s |}.

(** The record of one finished tagging call: added or failed *)
Definition is_tag_outcome (ev : event) : bool :=
  match ev with
  | Log _ (TagAdded _) | Log _ (TagFailed _) => true
  | _ => false
  end.

Definition tag_outcomes (tr : list event) : nat :=
  List.length (filter is_tag_outcome tr).

Definition is_summary (ev : event) : bool :=
  match ev with
  | Log _ (Summary _) => true
  | _ => false
  end.

Definition is_set_category (ev : event) : bool :=
  match ev with
  | Request (torrents_setCategory _ _) => true
  | _ => false
  end.

Definition is_request (ev : event) : bool :=
  match ev with
  | Request _ => true
  | _ => false
  end.

(** A relation between the state before a computation and the state
    after it, kept by every run, whether it returns or raises *)
Definition keeps (W : Type) (R : state W -> state W -> Prop) (A : Type)
    (m : M W A) : Prop :=
  forall s, R s (snd (m s)).

(** Nothing added to the trace is a tagging record. *)
Definition same_tag_outcomes (W : Type) (s s' : state W) : Prop :=
  tag_outcomes (trace s') = tag_outcomes (trace s).

(** The trace only grows. *)
Definition extends (W : Type) (s s' : state W) : Prop :=
  exists added, trace s' = trace s ++ added.

(** The adapter's flag is left alone. *)
Definition same_login (W : Type) (s s' : state W) : Prop :=
  logged_in s' = logged_in s.

(** A computation that returns a count tallies from [n] when the count
    it returns exceeds [n] by the tagging records it has added, and an
    exception leaves it before any such record. *)
Definition tallies (W : Type) (n : nat) (m : M W nat) : Prop :=
  forall s,
    match m s with
    | (Returns k, s') =>
        (k + tag_outcomes (trace s) = n + tag_outcomes (trace s'))%nat
    | (Raised _, s') => tag_outcomes (trace s') = tag_outcomes (trace s)
    end.

(** The records that tell how a torrent fared, and the summary *)
Definition is_result_record (ev : event) : bool :=
  match ev with
  | Log _ (CategoryUpdated _) | Log _ (TagAdded _) | Log _ (TagFailed _)
  | Log _ (UpdateFailed _) | Log _ (CategoryException _ _)
  | Log _ (RetrieveFailed) | Log _ (Summary _) => true
  | _ => false
  end.

(** The spec's words: the tag set of an item.  The download client
    reports the tags of an item as one text, the tags separated by
    commas; the set is read off it by splitting and stripping. *)
Fixpoint split_on (separator : N) (s : pystr) : list pystr :=
  match s with
  | [] => [[]]
  | c :: rest =>
      if (c =? separator)%N then [] :: split_on separator rest
      else match split_on separator rest with
           | [] => [[c]]
           | word :: words => (c :: word) :: words
           end
  end.

Definition tag_set {rt : Runtime} (tags : pystr) : list pystr :=
  filter (fun tag => nonempty tag) (map strip (split_on 44 tags)).

(** The spec's words: the item bears the processed marker. *)
Definition bears_marker {rt : Runtime} (t : torrent) : bool :=
  existsb (pystr_eqb GGn_Sorted) (tag_set (get (info_tags t) [])).

(* ================================================================== *)
(** * Further ways to read a trace *)
(* ================================================================== *)

Definition is_create_category (ev : event) : bool :=
  match ev with
  | Request (torrents_createCategory _ _) => true
  | _ => false
  end.

Definition is_add_tags (ev : event) : bool :=
  match ev with
  | Request (torrents_addTags _ _) => true
  | _ => false
  end.

(** How many events of a kind a trace holds *)
Definition count (kind : event -> bool) (tr : list event) : nat :=
  List.length (filter kind tr).

(** No request of the kind [add_tags] has been added. *)
Definition same_add_tags (W : Type) (s s' : state W) : Prop :=
  count is_add_tags (trace s') = count is_add_tags (trace s).

(** A computation that raises nothing, whatever the state *)
Definition never_raises (W A : Type) (m : M W A) : Prop :=
  forall s, exists a s', m s = (Returns a, s').

(** A computation whose count, when it returns one, is [n] or [n + 1] *)
Definition bumps (W : Type) (n : nat) (m : M W nat) : Prop :=
  forall s,
    match m s with
    | (Returns k, _) => (n <= k <= n + 1)%nat
    | (Raised _, _) => True
    end.

(** The keys of [manufacturer_map] that can decide: a key that has an
    earlier key as a prefix never does. *)
Definition deciding_keys : list (pystr * pystr) :=
  [ (lit "windows", lit "Microsoft"); (lit "pc", lit "Microsoft");
    (lit "xbox", lit "Microsoft"); (lit "playstation", lit "Sony");
    (lit "switch", lit "Nintendo"); (lit "nintendo 3ds", lit "Nintendo");
    (lit "nintendo ds", lit "Nintendo"); (lit "wii", lit "Nintendo");
    (lit "gamecube", lit "Nintendo"); (lit "linux", lit "Linux");
    (lit "mac", lit "Apple"); (lit "ios", lit "Apple");
    (lit "android", lit "Google"); (lit "steam deck", lit "Valve") ].

(** The labels of the table, and the default *)
Definition manufacturers : list pystr :=
  [ lit "Microsoft"; lit "Sony"; lit "Nintendo"; lit "Linux"; lit "Apple";
    lit "Google"; lit "Valve"; lit "Unknown" ].

(** A character that, if it is white space, is the plain space *)
Definition plain_space {rt : Runtime} (c : N) : Prop :=
  isspace c = true -> c = 32%N.

Definition is_catalogue_request (ev : event) : bool :=
  match ev with
  | Request (gazelle_torrent _ _) => true
  | _ => false
  end.

(** The pause of [get_torrent]: [time.sleep(2)] *)
Definition is_pause (ev : event) : bool :=
  match ev with
  | Sleep 2 => true
  | _ => false
  end.

(** No more catalogue requests have been added than two-second pauses. *)
Definition paced (W : Type) (s s' : state W) : Prop :=
  (count is_catalogue_request (trace s') + count is_pause (trace s)
   <= count is_pause (trace s') + count is_catalogue_request (trace s))%nat.

(* ================================================================== *)
(** * html.unescape *)
(* ================================================================== *)

(** The function belongs to Python's standard library, not to the
    repository.  Its algorithm and its two tables of invalid references
    are written out here; the table of the HTML5 names, [_html5], which
    has 2231 entries, is a parameter. *)

Section Unescape.
Local Open Scope N_scope.

(** [_html5.get(name)] *)
Variable html5 : pystr -> option pystr.

(** The longest prefix of [s] whose characters satisfy [p], and the rest *)
Fixpoint span (p : N -> bool) (s : pystr) : pystr * pystr :=
  match s with
  | [] => ([], [])
  | c :: rest =>
      if p c then let (taken, left) := span p rest in (c :: taken, left)
      else ([], s)
  end.

(** The same, of [limit] characters at most *)
Fixpoint span_upto (limit : nat) (p : N -> bool) (s : pystr) : pystr * pystr :=
  match limit, s with
  | S limit', c :: rest =>
      if p c then let (taken, left) := span_upto limit' p rest in (c :: taken, left)
      else ([], s)
  | _, _ => ([], s)
  end.

Definition is_digit (c : N) : bool := (48 <=? c) && (c <=? 57).

Definition is_hex_digit (c : N) : bool :=
  is_digit c || ((65 <=? c) && (c <=? 70)) || ((97 <=? c) && (c <=? 102)).

(** The class of the names: none of TAB, LF, FF, space, less-than,
    ampersand, hash sign, semicolon *)
Definition is_name_char (c : N) : bool :=
  negb (existsb (N.eqb c) [9; 10; 12; 32; 60; 38; 35; 59]).

(** The optional semicolon that ends a reference *)
Definition closing (after : pystr) : pystr :=
  match after with
  | c :: _ => if c =? 59 then [59] else []
  | [] => []
  end.

(** What the group of [_charref] matches right after an ampersand: a
    hash sign and decimal digits, or a hash sign, an [x] and hexadecimal
    digits, or one to thirty-two name characters; then the semicolon if
    it is there. *)
Definition match_numeric (after_hash : pystr) : option pystr :=
  let (digits, after) := span is_digit after_hash in
  match digits, after_hash with
  | _ :: _, _ => Some (35 :: digits ++ closing after)
  | [], x :: after_x =>
      if (x =? 120) || (x =? 88) then
        let (digits, after) := span is_hex_digit after_x in
        match digits with
        | _ :: _ => Some (35 :: x :: digits ++ closing after)
        | [] => None
        end
      else None
  | [], [] => None
  end.

Definition match_name (rest : pystr) : option pystr :=
  let (name, after) := span_upto 32 is_name_char rest in
  match name with
  | _ :: _ => Some (name ++ closing after)
  | [] => None
  end.

Definition match_charref (rest : pystr) : option pystr :=
  match rest with
  | c :: after_hash =>
      if c =? 35 then match_numeric after_hash else match_name rest
  | [] => None
  end.

Definition digit_value (c : N) : N :=
  if is_digit c then c - 48
  else if (97 <=? c) then c - 87
  else c - 55.

(** [int(digits, base)] *)
Definition int_of (base : N) (digits : pystr) : N :=
  fold_left (fun value c => value * base + digit_value c) digits 0.

Definition invalid_charrefs : list (N * pystr) :=
  [ (0, [65533]); (13, [13]); (128, [8364]); (129, [129]); (130, [8218]);
    (131, [402]); (132, [8222]); (133, [8230]); (134, [8224]);
    (135, [8225]); (136, [710]); (137, [8240]); (138, [352]);
    (139, [8249]); (140, [338]); (141, [141]); (142, [381]); (143, [143]);
    (144, [144]); (145, [8216]); (146, [8217]); (147, [8220]);
    (148, [8221]); (149, [8226]); (150, [8211]); (151, [8212]);
    (152, [732]); (153, [8482]); (154, [353]); (155, [8250]); (156, [339]);
    (157, [157]); (158, [382]); (159, [376]) ].

(** The members of [_invalid_codepoints], as ranges *)
Definition invalid_codepoints : list (N * N) :=
  [ (1, 8); (11, 11); (14, 31); (127, 159); (64976, 65007); (65534, 65535);
    (131070, 131071); (196606, 196607); (262142, 262143); (327678, 327679);
    (393214, 393215); (458750, 458751); (524286, 524287); (589822, 589823);
    (655358, 655359); (720894, 720895); (786430, 786431); (851966, 851967);
    (917502, 917503); (983038, 983039); (1048574, 1048575);
    (1114110, 1114111) ].

(** What a numeric reference of value [num] is replaced by *)
Definition numeric_charref (num : N) : pystr :=
  match find (fun entry => fst entry =? num) invalid_charrefs with
  | Some entry => snd entry
  | None =>
      if ((55296 <=? num) && (num <=? 57343)) || (1114111 <? num) then [65533]
      else if existsb (fun r => (fst r <=? num) && (num <=? snd r))
                invalid_codepoints
      then []
      else [num]
  end.

(** The loop [for x in range(len(s)-1, 1, -1)]: the longest proper
    prefix of [s], of two characters at least, that is a name *)
Fixpoint longest_name (s : pystr) (x : nat) : option pystr :=
  match x with
  | S (S _ as x') =>
      match html5 (firstn x s) with
      | Some replacement => Some (replacement ++ skipn x s)
      | None => longest_name s x'
      end
  | _ => None
  end.

(** [_replace_charref], on the text the group matched: a numeric
    reference ([s[0] == '#']) or a name *)
Definition replace_numeric (x : N) (digits : pystr) : pystr :=
  if (x =? 120) || (x =? 88)
  then numeric_charref (int_of 16 (rstrip_char 59 digits))
  else numeric_charref (int_of 10 (rstrip_char 59 (x :: digits))).

Definition replace_name (s : pystr) : pystr :=
  match html5 s with
  | Some replacement => replacement
  | None =>
      match longest_name s (List.length s - 1) with
      | Some replaced => replaced
      | None => 38 :: s
      end
  end.

Definition replace_charref (s : pystr) : pystr :=
  match s with
  | c :: x :: digits =>
      if c =? 35 then replace_numeric x digits else replace_name s
  | _ => replace_name s
  end.

(** [_charref.sub(_replace_charref, s)], left to right; [skip] counts
    the characters of a match still to be passed over. *)
Fixpoint replace_charrefs (skip : nat) (s : pystr) : pystr :=
  match s with
  | [] => []
  | c :: rest =>
      match skip with
      | S skip' => replace_charrefs skip' rest
      | O =>
          if c =? 38 then
            match match_charref rest with
            | Some group =>
                replace_charref group
                ++ replace_charrefs (List.length group) rest
            | None => c :: replace_charrefs 0 rest
            end
          else c :: replace_charrefs 0 rest
      end
  end.

End Unescape.

(** An excerpt of [_html5]: the names the examples use, with and, for
    those the table has both ways, without the semicolon *)
Definition html5_excerpt (name : pystr) : option pystr :=
  match find (fun entry => pystr_eqb (fst entry) name)
          [ (lit "amp;", lit "&"); (lit "amp", lit "&");
            (lit "lt;", lit "<"); (lit "lt", lit "<");
            (lit "gt;", lit ">"); (lit "gt", lit ">");
            (lit "quot;", [34%N]); (lit "quot", [34%N]);
            (lit "apos;", lit "'"); (lit "nbsp;", [160%N]);
            (lit "nbsp", [160%N]) ] with
  | Some entry => Some (snd entry)
  | None => None
  end.

(** A runtime that decodes with that excerpt and knows, beyond ASCII,
    the no-break space as white space.  On text whose references are
    among those of the excerpt, or numeric, it decodes as
    [html.unescape] does. *)
Definition html_runtime : Runtime :=
  {| unicode_isspace := fun c => (c =? 160)%N;
     unicode_isalnum := fun _ => false;
     unicode_lower := fun s => s;
     unicode_upper := fun s => s;
     charref_sub := replace_charrefs html5_excerpt 0 |}.

(** The spec's words: a residual entity escape.  The text still holds
    something [html.unescape] would decode. *)
Definition decodes_further {rt : Runtime} (s : pystr) : bool :=
  negb (pystr_eqb (html_unescape s) s).

(** The references of the examples and what they stand for *)
Definition references : list (pystr * pystr) :=
  [ (lit "&amp;", lit "&"); (lit "&lt;", lit "<"); (lit "&gt;", lit ">");
    (lit "&quot;", [34%N]); (lit "&#39;", lit "'"); (lit "&#x27;", lit "'") ].

(* ================================================================== *)
(** * The deriver on metadata as it arrives *)
(* ================================================================== *)

(** [create_category] above takes metadata whose fields have the types
    the script uses them at.  What arrives is any JSON value; where a
    field has another type the script raises.  This layer follows the
    same lines of the source on a JSON value and keeps the exceptions. *)

(** A JSON value, as [response.json()] builds it.  A float or a list is
    not taken apart by the deriver: of such a value the model keeps what
    the script can observe, its truth value and its [str()]. *)
#[warnings="-register-all"]
Inductive jvalue :=
| JNull
| JBool (b : bool)
| JInt (z : Z)
| JStr (s : pystr)
| JDict (items : list (pystr * jvalue))
| JOther (truth : bool) (shown : pystr).

Inductive python_error :=
| attribute_error
| type_error.

Inductive attempt (A : Type) :=
| Done (a : A)
| Throws (e : python_error).

Arguments Throws {A} e.

Definition and_then {A B : Type} (a : attempt A) (k : A -> attempt B)
    : attempt B :=
  match a with
  | Done v => k v
  | Throws e => Throws e
  end.

(** The value bound to a key of a dictionary (a key occurs once) *)
Definition lookup (key : pystr) (items : list (pystr * jvalue)) : option jvalue :=
  match find (fun item => pystr_eqb (fst item) key) items with
  | Some item => Some (snd item)
  | None => None
  end.

(** Truth value, as [if v:] and [not v] test it *)
Definition json_truthy (v : jvalue) : bool :=
  match v with
  | JNull => false
  | JBool b => b
  | JInt z => negb (z =? 0)%Z
  | JStr s => nonempty s
  | JDict items => nonempty items
  | JOther truth _ => truth
  end.

(** [v.get(key, default)]: only a dictionary has the method. *)
Definition get_method (v : jvalue) (key : pystr) (default : jvalue) : attempt jvalue :=
  match v with
  | JDict items => Done (get (lookup key items) default)
  | _ => Throws attribute_error
  end.

(** [v.keys()] *)
Definition keys_method (v : jvalue) : attempt unit :=
  match v with
  | JDict _ => Done tt
  | _ => Throws attribute_error
  end.

Notation "'let!' x ':=' a 'in' k" := (and_then a (fun x => k))
  (at level 10, x name, a at level 100, k at level 200).

Section Untyped.
Context {rt : Runtime}.

(** [str(d)] of a dictionary, which is its [repr]; not modelled *)
Variable dict_str : list (pystr * jvalue) -> pystr.

(** [f"{v}"] *)
Definition str_of_json (v : jvalue) : pystr :=
  match v with
  | JNull => lit "None"
  | JBool true => lit "True"
  | JBool false => lit "False"
  | JInt z => str_of_int z
  | JStr s => s
  | JDict items => dict_str items
  | JOther _ shown => shown
  end.

(** [v.strip()]: only a string has the method. *)
Definition strip_method (v : jvalue) : attempt pystr :=
  match v with
  | JStr s => Done (strip s)
  | _ => Throws attribute_error
  end.

(** Lines 296-309 on any value: [html.unescape] tests ['&' not in s],
    and the substitutions want a string; a value that is not a string
    fails in the one or in the other with a type error. *)
Definition clean_name_of (game_name : jvalue) : attempt pystr :=
  match game_name with
  | JStr s => Done (clean_name s)
  | _ => Throws type_error
  end.

(** Lines 251-272 on any value *)
Definition subcategory_of (torrent_data : jvalue) : attempt pystr :=
  if json_truthy torrent_data then
    let! value := get_method torrent_data (lit "gameDOXType") (JStr []) in
    let! game_dox_type := strip_method value in
    let subcategory := subcategory_by_type game_dox_type in
    let clean_dox_type := remove_illegal game_dox_type in
    let subcategory := lit "/" ++ clean_dox_type in
    Done subcategory
  else Done [].

(** [create_category(api_data, torrent_hash)], lines 234-314, on any
    JSON value: [Done None] is the returned [None]. *)
Definition create_category_json (api_data : jvalue) (torrent_hash : option pystr)
    : attempt (option pystr) :=
  if negb (json_truthy api_data) then Done None
  else
    let! group := get_method api_data (lit "group") (JDict []) in
    let! torrent_data := get_method api_data (lit "torrent") (JDict []) in
    let! group_keys := keys_method group in
    let! torrent_keys := keys_method torrent_data in
    let! platform := get_method group (lit "platform") (JStr []) in
    let! platform := strip_method platform in
    let! game_name := get_method group (lit "name") (JStr (lit "Unknown Game")) in
    let! year := get_method group (lit "year") (JStr (lit "Unknown")) in
    let! subcategory := subcategory_of torrent_data in
    let manufacturer := manufacturer platform in
    let! clean_name := clean_name_of game_name in
    Done (Some (lit "Games/" ++ manufacturer ++ lit "/" ++ platform
                ++ lit "/" ++ clean_name ++ lit " (" ++ str_of_json year
                ++ lit ")" ++ subcategory)).

(** A field that is missing or a string *)
Definition string_or_missing (field : option jvalue) : bool :=
  match field with
  | None | Some (JStr _) => true
  | Some _ => false
  end.

(** The shape the deriver takes for granted: a dictionary; its
    ['group'], if it has one, a dictionary whose ['platform'] and
    ['name'] are strings; its ['torrent'], if it has one, a dictionary
    whose ['gameDOXType'] is a string. *)
Definition well_shaped (api_data : jvalue) : bool :=
  match api_data with
  | JDict items =>
      match lookup (lit "group") items with
      | None => true
      | Some (JDict group) =>
          string_or_missing (lookup (lit "platform") group)
          && string_or_missing (lookup (lit "name") group)
      | Some _ => false
      end
      &&
      match lookup (lit "torrent") items with
      | None => true
      | Some (JDict torrent_data) =>
          string_or_missing (lookup (lit "gameDOXType") torrent_data)
      | Some _ => false
      end
  | _ => false
  end.

(** The typed reading of a field *)
Definition string_field (field : option jvalue) : option pystr :=
  match field with
  | Some (JStr s) => Some s
  | _ => None
  end.

Definition scalar_field (v : jvalue) : scalar :=
  match v with
  | JInt z => Int z
  | other => Text (str_of_json other)
  end.

Definition other_keys (named : list pystr) (items : list (pystr * jvalue))
    : list pystr :=
  filter (fun key => negb (existsb (pystr_eqb key) named)) (map fst items).

(** The typed reading of well-shaped metadata *)
Definition typed (api_data : jvalue) : api_dict :=
  match api_data with
  | JDict items =>
      {| api_group :=
           match lookup (lit "group") items with
           | Some (JDict group) =>
               Some {| group_platform := string_field (lookup (lit "platform") group);
                       group_name := string_field (lookup (lit "name") group);
                       group_year := option_map scalar_field
                                       (lookup (lit "year") group) |}
           | _ => None
           end;
         api_torrent :=
           match lookup (lit "torrent") items with
           | Some (JDict torrent_data) =>
               Some {| torrent_gameDOXType :=
                         string_field (lookup (lit "gameDOXType") torrent_data);
                       torrent_other_keys :=
                         other_keys [lit "gameDOXType"] torrent_data |}
           | _ => None
           end;
         api_other_keys := other_keys [lit "group"; lit "torrent"] items |}
  | _ => empty_api
  end.

End Untyped.

(** Metadata whose platform is [null] *)
Definition null_platform : jvalue :=
  JDict [ (lit "group", JDict [ (lit "platform", JNull);
                                (lit "name", JStr (lit "Foo")) ]) ].

(** Metadata with an identifier only *)
Definition bare_json : jvalue := JDict [ (lit "id", JInt 7) ].

(** Metadata whose ['group'] is [null] *)
Definition null_group : jvalue := JDict [ (lit "group", JNull) ].

(** Metadata whose title is a number *)
Definition numeric_name : jvalue :=
  JDict [ (lit "group", JDict [ (lit "platform", JStr (lit "PC"));
                                (lit "name", JInt 1942) ]) ].

(* ================================================================== *)
(** * Sample data *)
(* ================================================================== *)

(** A runtime that knows nothing beyond ASCII.  On ASCII text without an
    ampersand no function of the model consults the runtime, so what is
    evaluated with this one holds with every other. *)
Definition ascii_runtime : Runtime :=
  {| unicode_isspace := fun _ => false;
     unicode_isalnum := fun _ => false;
     unicode_lower := fun s => s;
     unicode_upper := fun s => s;
     charref_sub := fun s => s |}.

(** Metadata whose only content is the release's content type *)
Definition release_of_type (game_dox_type : pystr) : api_dict :=
  {| api_group := None;
     api_torrent := Some {| torrent_gameDOXType := Some game_dox_type;
                            torrent_other_keys := [] |};
     api_other_keys := [] |}.

(** A release with an identifier and no content type *)
Definition release_without_type : api_dict :=
  {| api_group := None;
     api_torrent := Some {| torrent_gameDOXType := None;
                            torrent_other_keys := [lit "id"] |};
     api_other_keys := [] |}.

(** Metadata of a game, with an empty ['torrent'] dictionary *)
Definition game (platform name : pystr) (year : scalar) : api_dict :=
  {| api_group := Some {| group_platform := Some platform;
                          group_name := Some name;
                          group_year := Some year |};
     api_torrent := Some empty_torrent;
     api_other_keys := [] |}.

(** Metadata without a ['group'] and without a ['torrent'] *)
Definition bare_metadata : api_dict :=
  {| api_group := None; api_torrent := None; api_other_keys := [lit "id"] |}.

(** A small stand-in for the two services.  Its world is the list of
    categories the download client knows.  Setting a category that does
    not exist answers 409; the catalogue knows one game.  [fault] picks
    what goes wrong. *)
Inductive fault :=
| NoFault
| TrackersTimeOut
| TagsTimeOut
| TagsRefused
| CreateRefused.

Definition answer (A : Type) (status : Z) (body : option A) : reply A :=
  Answers {| status_code := status; text := []; json := body |}.

Definition demo_server (listing : list torrent) (f : fault)
    : server (list pystr) :=
  {| on_login := fun _ _ w =>
       (Answers {| status_code := 200; text := lit "Ok."; json := None |}, w);
     on_info := fun w => (answer 200 (Some listing), w);
     on_trackers := fun _ w =>
       match f with
       | TrackersTimeOut => (Fails ReadTimeout, w)
       | _ => (answer 200
                 (Some [ {| tracker_url :=
                              Some (lit "https://tracker.GazelleGames.net/announce") |} ]),
               w)
       end;
     on_categories := fun w => (answer 200 (Some w), w);
     on_createCategory := fun category _ w =>
       match f with
       | CreateRefused => (answer 409 None, w)
       | _ => (answer 200 None, category :: w)
       end;
     on_setCategory := fun _ category w =>
       if existsb (pystr_eqb category) w
       then (answer 200 None, w) else (answer 409 None, w);
     on_addTags := fun _ _ w =>
       match f with
       | TagsTimeOut => (Fails ReadTimeout, w)
       | TagsRefused => (answer 500 None, w)
       | _ => (answer 200 None, w)
       end;
     on_gazelle := fun _ _ w =>
       (answer 200
          (Some {| env_status := Some (lit "success");
                   env_response := Some (game (lit "PlayStation 4") (lit "Foo")
                                           (Int 2019));
                   env_error := None |}),
        w) |}.

Definition demo_client : QBittorrentClient :=
  {| host := lit "http://localhost:8080"; username := lit "admin";
     password := lit "secret" |}.

Definition demo_catalogue : GazelleGamesAPI := {| api_key := lit "0123456789" |}.

Definition demo_environ : environ :=
  {| QB_HOST := Some (lit "http://localhost:8080/");
     QB_USERNAME := Some (lit "admin");
     QB_PASSWORD := Some (lit "secret");
     GGN_API_KEY := Some (lit "0123456789") |}.

Definition item (hash name tags : string) : torrent :=
  {| info_hash := Some (lit hash); info_name := Some (lit name);
     info_category := Some []; info_tags := Some (lit tags) |}.

(** A state before anything has happened *)
Definition start (categories : list pystr) (authenticated : bool)
    : state (list pystr) :=
  {| world := categories; logged_in := authenticated; trace := [] |}.

(** A server that answers the login with status 403 *)
Definition closed_server : server (list pystr) :=
  {| on_login := fun _ _ w => (answer 403 None, w);
     on_info := on_info (demo_server [] NoFault);
     on_trackers := on_trackers (demo_server [] NoFault);
     on_categories := on_categories (demo_server [] NoFault);
     on_createCategory := on_createCategory (demo_server [] NoFault);
     on_setCategory := on_setCategory (demo_server [] NoFault);
     on_addTags := on_addTags (demo_server [] NoFault);
     on_gazelle := on_gazelle (demo_server [] NoFault) |}.


(* ================================================================== *)
(** * Facts about text *)
(* ================================================================== *)

Lemma app_five (A : Type) (a b c d e x : list A) :
  a ++ b ++ c ++ d ++ e ++ x = (a ++ b ++ c ++ d ++ e) ++ x.
Proof. now rewrite !app_assoc. Qed.

Section TextFacts.
Context {rt : Runtime}.

Lemma char_in_In (c : N) (s : pystr) : char_in c s = true <-> In c s.
Proof.
  unfold char_in. rewrite existsb_exists. split.
  - intros [x [Hx Heq]]. apply N.eqb_eq in Heq. now subst.
  - intros H. exists c. split; [assumption | apply N.eqb_refl].
Qed.

Lemma char_in_false (c : N) (s : pystr) : char_in c s = false <-> ~ In c s.
Proof.
  rewrite <- char_in_In. destruct (char_in c s); split; congruence.
Qed.

Lemma pystr_eqb_eq (a b : pystr) : pystr_eqb a b = true <-> a = b.
Proof.
  unfold pystr_eqb. destruct (list_eq_dec N.eq_dec a b); split; congruence.
Qed.

Lemma keep_basic_Forall (s : pystr) :
  Forall (fun c => basic c = true) (keep_basic s).
Proof.
  apply Forall_forall. intros c Hc. unfold keep_basic in Hc.
  apply filter_In in Hc. exact (proj2 Hc).
Qed.

(** None of the nine characters is a word character, white space or
    kept punctuation; nor are the semicolon and the hash sign. *)
Lemma illegal_not_basic (c : N) : In c illegal_chars -> basic c = false.
Proof.
  intros H. repeat (destruct H as [<- | H]; [reflexivity |]). destruct H.
Qed.

Lemma semicolon_not_basic : basic 59 = false.
Proof. reflexivity. Qed.

Lemma hash_not_basic : basic 35 = false.
Proof. reflexivity. Qed.

Lemma keep_basic_legal (s : pystr) :
  Forall (fun c => ~ In c illegal_chars) (keep_basic s).
Proof.
  eapply Forall_impl; [| apply keep_basic_Forall].
  intros c Hb Hill. apply illegal_not_basic in Hill. congruence.
Qed.

Lemma keep_basic_without (c : N) (s : pystr) :
  basic c = false -> ~ In c (keep_basic s).
Proof.
  intros Hc Hin. unfold keep_basic in Hin. apply filter_In in Hin.
  destruct Hin as [_ Hb]. congruence.
Qed.

Lemma remove_illegal_legal (s : pystr) :
  Forall (fun c => ~ In c illegal_chars) (remove_illegal s).
Proof.
  apply Forall_forall. intros c Hc. unfold remove_illegal in Hc.
  apply filter_In in Hc. destruct Hc as [_ Hc].
  apply negb_true_iff in Hc. now apply char_in_false.
Qed.

(** A needle that occurs, occurs with every prefix of it. *)
Lemma startswith_app (a b s : pystr) :
  startswith (a ++ b) s = true -> startswith a s = true.
Proof.
  revert s. induction a as [| x a IH]; intros s H; [reflexivity |].
  destruct s as [| y s]; simpl in *; [discriminate |].
  apply andb_true_iff in H. destruct H as [Hxy H].
  rewrite Hxy. simpl. now apply IH.
Qed.

Lemma contains_app (a b s : pystr) :
  contains (a ++ b) s = true -> contains a s = true.
Proof.
  induction s as [| y s IH]; simpl; intros H.
  - apply orb_true_iff in H. destruct H as [H | H]; [| discriminate].
    apply startswith_app in H. now rewrite H.
  - apply orb_true_iff in H. apply orb_true_iff. destruct H as [H | H].
    + left. now apply startswith_app in H.
    + right. now apply IH.
Qed.

Lemma contains_app_false (a b s : pystr) :
  contains a s = false -> contains (a ++ b) s = false.
Proof.
  intros H. destruct (contains (a ++ b) s) eqn:E; [| reflexivity].
  apply contains_app in E. congruence.
Qed.

(** The substring test, as a statement about the text *)
Lemma startswith_spec (p s : pystr) :
  startswith p s = true <-> exists rest, s = p ++ rest.
Proof.
  revert s. induction p as [| x p IH]; intros s; simpl.
  - split; [intros _; now exists s | reflexivity].
  - destruct s as [| y s].
    + split; [discriminate | intros [r Hr]; discriminate].
    + rewrite andb_true_iff, N.eqb_eq, IH. split.
      * intros [-> [r ->]]. now exists r.
      * intros [r Hr]. injection Hr as -> ->. split; [reflexivity | now exists r].
Qed.

Lemma contains_spec (needle hay : pystr) :
  contains needle hay = true <-> exists before after, hay = before ++ needle ++ after.
Proof.
  induction hay as [| y hay IH]; simpl.
  - rewrite orb_false_r, startswith_spec. split.
    + intros [r Hr]. now exists [], r.
    + intros [b [a H]]. destruct b; [now exists a | discriminate].
  - rewrite orb_true_iff, startswith_spec, IH. split.
    + intros [[r Hr] | [b [a H]]].
      * now exists [], r.
      * exists (y :: b), a. simpl. now rewrite H.
    + intros [b [a H]]. destruct b as [| x b].
      * left. now exists a.
      * right. injection H as _ H. now exists b, a.
Qed.

End TextFacts.

(* ================================================================== *)
(** * The category deriver *)
(* ================================================================== *)

Section DeriverFacts.
Context {rt : Runtime}.

(** The pieces the category of a dictionary is made of *)
Lemma create_category_layout (data : api_dict) (torrent_hash : option pystr) :
  api_truthy data = true ->
  let group := get (api_group data) empty_group in
  let platform := strip (get (group_platform group) []) in
  create_category (Some data) torrent_hash =
  Some (lit "Games/" ++ manufacturer platform ++ lit "/" ++ platform
        ++ lit "/" ++ clean_name (get (group_name group) (lit "Unknown Game"))
        ++ lit " (" ++ format (get (group_year group) (Text (lit "Unknown")))
        ++ lit ")" ++ subcategory (get (api_torrent data) empty_torrent)).
Proof.
  intros H. unfold create_category. now rewrite H.
Qed.

(** What lines 269-270 leave in [subcategory], whatever lines 256-266 did *)
Lemma subcategory_overwritten (torrent_data : torrent_dict) :
  torrent_truthy torrent_data = true ->
  subcategory torrent_data =
  lit "/" ++ remove_illegal (strip (get (torrent_gameDOXType torrent_data) [])).
Proof.
  intros H. unfold subcategory. now rewrite H.
Qed.

(** The first assignment does map the three known types to their labels. *)
Lemma subcategory_by_type_labels :
  subcategory_by_type (lit "update") = lit "/Update" /\
  subcategory_by_type (lit "dlc") = lit "/DLC" /\
  subcategory_by_type (lit "Patch") = lit "/Patch" /\
  subcategory_by_type [] = [].
Proof. repeat split. Qed.

Lemma lookup_manufacturer_values (items : list (pystr * pystr))
    (platform_lower default : pystr) :
  In (lookup_manufacturer items platform_lower default)
     (default :: map snd items).
Proof.
  induction items as [| [key mfg] items IH]; simpl.
  - now left.
  - destruct (contains key platform_lower).
    + right. now left.
    + destruct IH as [IH | IH]; [now left | right; now right].
Qed.

Lemma manufacturer_legal (platform : pystr) :
  Forall (fun c => ~ In c illegal_chars) (manufacturer platform).
Proof.
  assert (Hall : forallb (fun m => forallb (fun c => negb (char_in c illegal_chars)) m)
                   (lit "Unknown" :: map snd manufacturer_map) = true)
    by reflexivity.
  rewrite forallb_forall in Hall.
  specialize (Hall _ (lookup_manufacturer_values manufacturer_map
                        (lower platform) (lit "Unknown"))).
  rewrite forallb_forall in Hall.
  apply Forall_forall. intros c Hc. apply char_in_false.
  apply negb_true_iff. now apply Hall.
Qed.

(** The loop stops at the first key that occurs. *)
Lemma lookup_manufacturer_first (before after : list (pystr * pystr))
    (key mfg platform_lower default : pystr) :
  Forall (fun entry => contains (fst entry) platform_lower = false) before ->
  contains key platform_lower = true ->
  lookup_manufacturer (before ++ (key, mfg) :: after) platform_lower default = mfg.
Proof.
  intros Hbefore Hkey. induction Hbefore as [| [k m] before Hk _ IH]; simpl.
  - now rewrite Hkey.
  - simpl in Hk. now rewrite Hk.
Qed.

Lemma lookup_manufacturer_none (items : list (pystr * pystr))
    (platform_lower default : pystr) :
  Forall (fun entry => contains (fst entry) platform_lower = false) items ->
  lookup_manufacturer items platform_lower default = default.
Proof.
  intros H. induction H as [| [k m] items Hk _ IH]; simpl.
  - reflexivity.
  - simpl in Hk. now rewrite Hk.
Qed.

End DeriverFacts.
(* ================================================================== *)
(** * Facts about html.unescape *)
(* ================================================================== *)

Section UnescapeFacts.
Variable html5 : pystr -> option pystr.

Lemma span_upto_app (limit : nat) (p : N -> bool) (s : pystr) :
  s = fst (span_upto limit p s) ++ snd (span_upto limit p s).
Proof.
  revert s. induction limit as [| limit IH]; intros [| c rest];
    try reflexivity.
  cbn [span_upto]. destruct (p c); [| reflexivity].
  specialize (IH rest). destruct (span_upto limit p rest) as [taken left].
  cbn [fst snd app] in *. now rewrite <- IH.
Qed.

Lemma skipn_length_app (a b : pystr) : skipn (List.length a) (a ++ b) = b.
Proof. induction a as [| x a IH]; [reflexivity | exact IH]. Qed.

Lemma longest_name_none (s : pystr) (x : nat) :
  (forall k, 2 <= k <= x -> html5 (firstn k s) = None) ->
  longest_name html5 s x = None.
Proof.
  induction x as [| x IH]; intros H; [reflexivity |].
  destruct x as [| x]; [reflexivity |].
  cbn [longest_name]. rewrite (H (S (S x))) by lia.
  apply IH. intros k Hk. apply H. lia.
Qed.

(** A text without ampersand is left as it is. *)
Lemma replace_charrefs_plain (a rest : pystr) :
  char_in 38 a = false ->
  replace_charrefs html5 0 (a ++ rest) = a ++ replace_charrefs html5 0 rest.
Proof.
  induction a as [| c a IH]; intros H; [reflexivity |].
  cbn [char_in existsb] in H. apply orb_false_iff in H. destruct H as [Hc Ha].
  cbn [app replace_charrefs]. rewrite N.eqb_sym, Hc. f_equal. now apply IH.
Qed.

Lemma replace_charrefs_none (s : pystr) :
  char_in 38 s = false -> replace_charrefs html5 0 s = s.
Proof.
  intros H. rewrite <- (app_nil_r s) at 1.
  rewrite (replace_charrefs_plain s [] H). cbn [replace_charrefs].
  apply app_nil_r.
Qed.

(** A text without semicolon and without hash sign, in which no
    ampersand is followed by a name of the table, is left as it is. *)
Lemma replace_charrefs_inert (s : pystr) :
  ~ In 59%N s -> ~ In 35%N s ->
  (forall before name after,
     s = before ++ 38%N :: name ++ after -> name <> [] -> html5 name = None) ->
  forall skip, replace_charrefs html5 skip s = skipn skip s.
Proof.
  induction s as [| c rest IH]; intros Hsemi Hhash Hnames skip.
  - destruct skip; reflexivity.
  - assert (IH' : forall skip, replace_charrefs html5 skip rest = skipn skip rest).
    { apply IH.
      - intros H. apply Hsemi. now right.
      - intros H. apply Hhash. now right.
      - intros before name after Hs Hne.
        apply (Hnames (c :: before) name after); [| exact Hne].
        cbn [app]. now rewrite Hs. }
    destruct skip as [| skip]; cbn [replace_charrefs skipn]; [| apply IH'].
    destruct (N.eqb_spec c 38) as [-> | _]; [| now rewrite IH'].
    destruct (match_charref rest) as [group |] eqn:Hmatch; [| now rewrite IH'].
    destruct rest as [| r rest']; [discriminate |].
    cbn [match_charref] in Hmatch.
    destruct (N.eqb_spec r 35) as [-> | Hr];
      [exfalso; apply Hhash; right; now left |].
    unfold match_name in Hmatch.
    pose proof (span_upto_app 32 is_name_char (r :: rest')) as Hsplit.
    destruct (span_upto 32 is_name_char (r :: rest')) as [name after].
    cbn [fst snd] in Hsplit.
    destruct name as [| n name']; [discriminate |].
    assert (Hclosing : closing after = []).
    { destruct after as [| a after']; [reflexivity |]. cbn [closing].
      destruct (N.eqb_spec a 59) as [-> | _]; [| reflexivity].
      exfalso. apply Hsemi. right. rewrite Hsplit.
      apply in_or_app. right. now left. }
    rewrite Hclosing, app_nil_r in Hmatch. injection Hmatch as <-.
    assert (Hname : replace_charref html5 (n :: name') = 38%N :: n :: name').
    { assert (Hnamed : replace_name html5 (n :: name') = 38%N :: n :: name').
      { unfold replace_name.
        rewrite (Hnames [] (n :: name') after);
          [| cbn [app]; now rewrite Hsplit | discriminate].
        rewrite longest_name_none; [reflexivity |].
        intros k Hk.
        apply (Hnames [] (firstn k (n :: name'))
                 (skipn k (n :: name') ++ after)).
        - cbn [app]. rewrite app_assoc, firstn_skipn. now rewrite Hsplit.
        - destruct k as [| k]; [lia | discriminate]. }
      cbn [replace_charref]. destruct name' as [| x digits]; [exact Hnamed |].
      destruct (N.eqb_spec n 35) as [-> | _]; [| exact Hnamed].
      exfalso. apply Hhash. right. rewrite Hsplit. now left. }
    rewrite Hname, IH', Hsplit, skipn_length_app.
    reflexivity.
Qed.

End UnescapeFacts.

(** With the runtime of the examples, [html.unescape] is its
    substitution on every text. *)
Lemma html_unescape_sub (s : pystr) :
  html_unescape (rt:=html_runtime) s = replace_charrefs html5_excerpt 0 s.
Proof.
  unfold html_unescape. destruct (char_in 38 s) eqn:H; [reflexivity |].
  cbn [negb]. symmetry. now apply replace_charrefs_none.
Qed.

(** The first reference of a text is replaced, and the decoding goes on
    after it: what the reference stood for is not decoded again. *)
Lemma html_unescape_first (reference decoded a b : pystr) :
  In (reference, decoded) references ->
  char_in 38 a = false ->
  html_unescape (rt:=html_runtime) (a ++ reference ++ b)
  = a ++ decoded ++ html_unescape (rt:=html_runtime) b.
Proof.
  intros Hin Ha. rewrite !html_unescape_sub.
  rewrite (replace_charrefs_plain html5_excerpt a (reference ++ b) Ha).
  f_equal. unfold references in Hin. cbn [In] in Hin.
  repeat (destruct Hin as [Hin | Hin];
          [injection Hin as <- <-; reflexivity |]).
  contradiction.
Qed.

(* ================================================================== *)
(** * Claims about the category deriver *)
(* ================================================================== *)

(** C1.  The subcategory of a release whose type is a known one.  With
    the ['torrent'] dictionary [{'gameDOXType': 'dlc'}] the category ends
    in [/dlc], not in the label [/DLC]; with ['update'] it ends in
    [/update]; and with a non-empty ['torrent'] dictionary that has no
    type it ends in a bare slash, not in the empty subcategory.  The
    second assignment of lines 269-270 has replaced the label (or the
    empty string) that lines 256-266 chose. *)
Theorem subcategory_label_is_overwritten (rt : Runtime) :
  create_category (Some (release_of_type (lit "dlc"))) None
    = Some (lit "Games/Unknown//Unknown Game (Unknown)/dlc") /\
  create_category (Some (release_of_type (lit "update"))) None
    = Some (lit "Games/Unknown//Unknown Game (Unknown)/update") /\
  create_category (Some release_without_type) None
    = Some (lit "Games/Unknown//Unknown Game (Unknown)/") /\
  subcategory_by_type (strip (lit "dlc")) = lit "/DLC".
Proof. repeat split. Qed.




(** C6, as the claim has it, fails: the platform [PlayStation 4 (PC
    port)] contains [playstation] once lowercased, and its manufacturer is
    [Microsoft], because the key [pc] stands before [playstation] in the
    table. *)
Lemma playstation_pc_port_is_microsoft :
  (forall rt : Runtime,
     contains (lit "playstation") (lower (lit "PlayStation 4 (PC port)")) = true) /\
  (forall rt : Runtime,
     manufacturer (lit "PlayStation 4 (PC port)") = lit "Microsoft") /\
  (forall rt : Runtime,
     create_category
       (Some (game (lit "PlayStation 4 (PC port)") (lit "Foo") (Int 2019))) None
     = Some (lit "Games/Microsoft/PlayStation 4 (PC port)/Foo (2019)")).
Proof. repeat split. Qed.

(** C6, amended.  The manufacturer is the label of the first entry of
    the table whose key occurs in the lowercased platform, and [Unknown]
    when no key occurs.  So a platform that contains [windows], [pc] or
    [xbox] is Microsoft's; one that contains [playstation] and none of
    those three is Sony's; one that contains [switch], [wii] or
    [gamecube], none of the keys of Microsoft and Sony and no key of
    Nintendo is Nintendo's.  The manufacturer is the segment after
    [Games/] in the category. *)
Theorem manufacturer_is_first_match (rt : Runtime) (platform : pystr) :
  let platform_lower := lower platform in
  let absent := fun key => contains key platform_lower = false in
  let present := fun key => contains key platform_lower = true in
  (forall before key mfg after,
     manufacturer_map = before ++ (key, mfg) :: after ->
     Forall (fun entry => contains (fst entry) platform_lower = false) before ->
     contains key platform_lower = true ->
     manufacturer platform = mfg) /\
  (Forall (fun entry => contains (fst entry) platform_lower = false)
     manufacturer_map ->
   manufacturer platform = lit "Unknown") /\
  (present (lit "windows") \/ present (lit "pc") \/ present (lit "xbox") ->
   manufacturer platform = lit "Microsoft") /\
  (present (lit "playstation") ->
   absent (lit "windows") -> absent (lit "pc") -> absent (lit "xbox") ->
   manufacturer platform = lit "Sony") /\
  (present (lit "switch") \/ present (lit "wii") \/ present (lit "gamecube") ->
   absent (lit "windows") -> absent (lit "pc") -> absent (lit "xbox") -> absent (lit "playstation") ->
   manufacturer platform = lit "Nintendo") /\
  (forall data torrent_hash,
     api_truthy data = true ->
     strip (get (group_platform (get (api_group data) empty_group)) []) = platform ->
     exists rest,
       create_category (Some data) torrent_hash
         = Some (lit "Games/" ++ manufacturer platform ++ lit "/" ++ rest)).
Proof.
  intros platform_lower absent present. unfold absent, present.
  repeat split.
  - intros before key mfg after Hmap Hbefore Hkey.
    unfold manufacturer. fold platform_lower. rewrite Hmap.
    now apply lookup_manufacturer_first.
  - intros Hnone. unfold manufacturer.
    now apply lookup_manufacturer_none.
  - intros H. unfold manufacturer, manufacturer_map. fold platform_lower.
    simpl lookup_manufacturer.
    destruct (contains (lit "windows") platform_lower); [reflexivity |].
    destruct (contains (lit "pc") platform_lower); [reflexivity |].
    destruct (contains (lit "xbox") platform_lower); [reflexivity |].
    destruct H as [H | [H | H]]; discriminate.
  - intros Hps Hw Hpc Hx.
    unfold manufacturer, manufacturer_map. fold platform_lower.
    simpl lookup_manufacturer. rewrite Hw, Hpc, Hx.
    rewrite (contains_app_false (lit "xbox") (lit " 360") _ Hx
               : contains (lit "xbox 360") platform_lower = false).
    rewrite (contains_app_false (lit "xbox") (lit " one") _ Hx
               : contains (lit "xbox one") platform_lower = false).
    rewrite (contains_app_false (lit "xbox") (lit " series x") _ Hx
               : contains (lit "xbox series x") platform_lower = false).
    now rewrite Hps.
  - intros H Hw Hpc Hx Hps.
    unfold manufacturer, manufacturer_map. fold platform_lower.
    simpl lookup_manufacturer. rewrite Hw, Hpc, Hx, Hps.
    rewrite (contains_app_false (lit "xbox") (lit " 360") _ Hx
               : contains (lit "xbox 360") platform_lower = false).
    rewrite (contains_app_false (lit "xbox") (lit " one") _ Hx
               : contains (lit "xbox one") platform_lower = false).
    rewrite (contains_app_false (lit "xbox") (lit " series x") _ Hx
               : contains (lit "xbox series x") platform_lower = false).
    rewrite (contains_app_false (lit "playstation") (lit " 2") _ Hps
               : contains (lit "playstation 2") platform_lower = false).
    rewrite (contains_app_false (lit "playstation") (lit " 3") _ Hps
               : contains (lit "playstation 3") platform_lower = false).
    rewrite (contains_app_false (lit "playstation") (lit " 4") _ Hps
               : contains (lit "playstation 4") platform_lower = false).
    rewrite (contains_app_false (lit "playstation") (lit " 5") _ Hps
               : contains (lit "playstation 5") platform_lower = false).
    rewrite (contains_app_false (lit "playstation") (lit " portable") _ Hps
               : contains (lit "playstation portable") platform_lower = false).
    rewrite (contains_app_false (lit "playstation") (lit " vita") _ Hps
               : contains (lit "playstation vita") platform_lower = false).
    destruct (contains (lit "switch") platform_lower); [reflexivity |].
    destruct (contains (lit "nintendo 3ds") platform_lower); [reflexivity |].
    destruct (contains (lit "nintendo ds") platform_lower); [reflexivity |].
    destruct (contains (lit "wii") platform_lower) eqn:Hwii; [reflexivity |].
    rewrite (contains_app_false (lit "wii") (lit " u") _ Hwii
               : contains (lit "wii u") platform_lower = false).
    destruct (contains (lit "gamecube") platform_lower); [reflexivity |].
    destruct H as [H | [H | H]]; discriminate.
  - intros data torrent_hash Htruthy Hplatform.
    rewrite (create_category_layout data torrent_hash Htruthy), Hplatform.
    eexists. reflexivity.
Qed.

(** C6, amended, at the platform [PlayStation 4] *)
Lemma manufacturer_of_playstation_4 :
  manufacturer (rt:=ascii_runtime) (lit "PlayStation 4") = lit "Sony".
Proof.
  destruct (manufacturer_is_first_match ascii_runtime (lit "PlayStation 4"))
    as [_ [_ [_ [H _]]]].
  apply H; reflexivity.
Defined.
Section CategoryCharacters.
Context {rt : Runtime}.

Lemma occurrences_app (c : N) (s t : pystr) :
  occurrences c (s ++ t) = occurrences c s + occurrences c t.
Proof.
  unfold occurrences. now rewrite filter_app, length_app.
Qed.

Lemma occurrences_legal (c : N) (s : pystr) :
  In c illegal_chars -> Forall (fun x => ~ In x illegal_chars) s ->
  occurrences c s = 0.
Proof.
  intros Hc Hs. unfold occurrences.
  induction Hs as [| x s Hx _ IH]; [reflexivity |].
  cbn [filter]. destruct (N.eqb_spec c x) as [-> | _]; [contradiction | exact IH].
Qed.

(** The slashes of a literal piece of the layout; it holds none of the
    other eight characters. *)
Lemma occurrences_literal (c : N) (s : pystr) (slashes : nat) :
  forallb (fun x => negb (char_in x illegal_chars) || (x =? 47)%N) s = true ->
  occurrences 47 s = slashes ->
  In c illegal_chars ->
  occurrences c s = if (c =? 47)%N then slashes else 0.
Proof.
  intros Hs Hslashes Hc. destruct (N.eqb_spec c 47) as [-> | Hne];
    [exact Hslashes |].
  unfold occurrences. clear Hslashes.
  induction s as [| x s IH]; [reflexivity |].
  cbn [forallb] in Hs. apply andb_true_iff in Hs. destruct Hs as [Hx Hs].
  cbn [filter]. destruct (N.eqb_spec c x) as [<- | _]; [| now apply IH].
  apply orb_true_iff in Hx. destruct Hx as [Hx | Hx].
  - apply negb_true_iff, char_in_false in Hx. contradiction.
  - apply N.eqb_eq in Hx. contradiction.
Qed.

End CategoryCharacters.

(** C8, as the claim has it, fails: the platform and the year go into
    the category as they are.  With the platform [Amiga: CD32] and the
    year [19?9] the category holds a colon and a question mark, two of the
    nine characters. *)
Lemma platform_colon_reaches_category :
  (forall rt : Runtime,
     create_category
       (Some (game (lit "Amiga: CD32") (lit "Foo") (Text (lit "19?9")))) None
     = Some (lit "Games/Unknown/Amiga: CD32/Foo (19?9)")) /\
  In 58%N illegal_chars /\
  In 58%N (lit "Games/Unknown/Amiga: CD32/Foo (19?9)") /\
  In 63%N illegal_chars /\
  In 63%N (lit "Games/Unknown/Amiga: CD32/Foo (19?9)").
Proof.
  split; [reflexivity |]. cbv. repeat split; tauto.
Qed.

(** C8, amended.  The category is [Games/], the manufacturer, a slash,
    the platform (stripped), a slash, the cleaned title, the year
    (formatted) in brackets and, for a non-empty ['torrent'] dictionary,
    a slash and the sanitised release type.  The manufacturer, the
    cleaned title and the sanitised release type hold none of the nine
    characters; the platform and the year are inserted as they are.  So
    each of the nine characters occurs in the category exactly as often
    as in the platform and the year together, the slash apart, which
    occurs three times more as a path separator and once more before a
    subcategory; and a category whose platform and year are free of the
    nine characters holds none of them but path slashes. *)
Theorem category_characters_counted (rt : Runtime) (data : api_dict)
    (torrent_hash : option pystr) :
  api_truthy data = true ->
  let group := get (api_group data) empty_group in
  let torrent_data := get (api_torrent data) empty_torrent in
  let platform := strip (get (group_platform group) []) in
  let title := clean_name (get (group_name group) (lit "Unknown Game")) in
  let year := format (get (group_year group) (Text (lit "Unknown"))) in
  let release_type :=
    remove_illegal (strip (get (torrent_gameDOXType torrent_data) [])) in
  let category :=
    lit "Games/" ++ manufacturer platform ++ lit "/" ++ platform ++ lit "/"
    ++ title ++ lit " (" ++ year ++ lit ")"
    ++ (if torrent_truthy torrent_data then lit "/" ++ release_type else []) in
  let path_slashes := if torrent_truthy torrent_data then 4 else 3 in
  create_category (Some data) torrent_hash = Some category /\
  Forall (fun c => ~ In c illegal_chars) (manufacturer platform) /\
  Forall (fun c => ~ In c illegal_chars) title /\
  Forall (fun c => ~ In c illegal_chars) release_type /\
  (forall c, In c illegal_chars ->
     occurrences c category
     = occurrences c platform + occurrences c year
       + (if (c =? 47)%N then path_slashes else 0)) /\
  (Forall (fun c => ~ In c illegal_chars) platform ->
   Forall (fun c => ~ In c illegal_chars) year ->
   occurrences 47 category = path_slashes /\
   forall c, In c illegal_chars -> c <> 47%N -> ~ In c category).
Proof.
  intros Htruthy group torrent_data platform title year release_type
    category path_slashes.
  assert (Hmfg : Forall (fun c => ~ In c illegal_chars) (manufacturer platform))
    by apply manufacturer_legal.
  assert (Htitle : Forall (fun c => ~ In c illegal_chars) title)
    by apply keep_basic_legal.
  assert (Htype : Forall (fun c => ~ In c illegal_chars) release_type)
    by apply remove_illegal_legal.
  assert (Hcount : forall c, In c illegal_chars ->
            occurrences c category
            = occurrences c platform + occurrences c year
              + (if (c =? 47)%N then path_slashes else 0)).
  { intros c Hc. unfold category, path_slashes.
    rewrite !occurrences_app.
    rewrite (occurrences_legal Hc Hmfg), (occurrences_legal Hc Htitle).
    rewrite (@occurrences_literal c (lit "Games/") 1 eq_refl eq_refl Hc).
    rewrite (@occurrences_literal c (lit "/") 1 eq_refl eq_refl Hc).
    rewrite (@occurrences_literal c (lit " (") 0 eq_refl eq_refl Hc).
    rewrite (@occurrences_literal c (lit ")") 0 eq_refl eq_refl Hc).
    destruct (torrent_truthy torrent_data).
    - rewrite occurrences_app, (occurrences_legal Hc Htype).
      rewrite (@occurrences_literal c (lit "/") 1 eq_refl eq_refl Hc).
      destruct (c =? 47)%N; cbn [occurrences filter List.length]; lia.
    - destruct (c =? 47)%N; cbn [occurrences filter List.length]; lia. }
  split; [| repeat split; try assumption].
  - rewrite (create_category_layout data torrent_hash Htruthy).
    fold group. fold platform. fold year. fold title.
    unfold category, release_type, subcategory. fold torrent_data.
    now destruct (torrent_truthy torrent_data).
  - rewrite (Hcount 47%N) by (cbv; tauto).
    rewrite (@occurrences_legal 47%N platform) by ((cbv; tauto) || assumption).
    rewrite (@occurrences_legal 47%N year) by ((cbv; tauto) || assumption).
    reflexivity.
  - intros c Hc Hne Hin.
    assert (Hzero : occurrences c category = 0).
    { rewrite (Hcount c Hc).
      rewrite (@occurrences_legal c platform Hc) by assumption.
      rewrite (@occurrences_legal c year Hc) by assumption.
      apply N.eqb_neq in Hne. now rewrite Hne. }
    unfold occurrences in Hzero.
    assert (Hmem : In c (filter (N.eqb c) category))
      by (apply filter_In; split; [exact Hin | apply N.eqb_refl]).
    destruct (filter (N.eqb c) category); [contradiction | discriminate].
Qed.

(** C8, amended, at a game whose platform holds a slash and a colon *)
Lemma category_characters_counted_at_a_game :
  create_category (rt:=ascii_runtime)
    (Some (game (lit "AC/DC: Box") (lit "Foo: Bar") (Int 2019))) None
  = Some (lit "Games/Unknown/AC/DC: Box/Foo Bar (2019)") /\
  occurrences 47 (lit "Games/Unknown/AC/DC: Box/Foo Bar (2019)") = 4 /\
  occurrences 58 (lit "Games/Unknown/AC/DC: Box/Foo Bar (2019)") = 1.
Proof.
  destruct (category_characters_counted ascii_runtime
              (game (lit "AC/DC: Box") (lit "Foo: Bar") (Int 2019)) None
              eq_refl) as [Hlayout [_ [_ [_ [Hcount _]]]]].
  split; [exact Hlayout |]. split.
  - apply (Hcount 47%N). cbv. tauto.
  - apply (Hcount 58%N). cbv. tauto.
Defined.

(* ================================================================== *)
(** * The deriver on metadata as it arrives *)
(* ================================================================== *)

Section UntypedFacts.
Context {rt : Runtime}.
Variable dict_str : list (pystr * jvalue) -> pystr.

Lemma lookup_none (key : pystr) (items : list (pystr * jvalue)) :
  lookup key items = None ->
  Forall (fun item => pystr_eqb (fst item) key = false) items.
Proof.
  unfold lookup. intros H. apply Forall_forall. intros item Hitem.
  destruct (find (fun item => pystr_eqb (fst item) key) items) eqn:E;
    [discriminate |].
  exact (find_none _ _ E item Hitem).
Qed.

Lemma lookup_some_nonempty (key : pystr) (items : list (pystr * jvalue)) v :
  lookup key items = Some v -> nonempty items = true.
Proof. destruct items; [discriminate | reflexivity]. Qed.

(** Without the one key, the other keys are all the keys. *)
Lemma other_keys_all_1 (key : pystr) (items : list (pystr * jvalue)) :
  lookup key items = None ->
  nonempty (other_keys [key] items) = nonempty items.
Proof.
  intros H. apply lookup_none in H. destruct H as [| item rest Hitem _].
  - reflexivity.
  - unfold other_keys. simpl. now rewrite Hitem.
Qed.

Lemma other_keys_all_2 (k1 k2 : pystr) (items : list (pystr * jvalue)) :
  lookup k1 items = None -> lookup k2 items = None ->
  nonempty (other_keys [k1; k2] items) = nonempty items.
Proof.
  intros H1 H2. apply lookup_none in H1. apply lookup_none in H2.
  destruct H1 as [| item rest Hitem1 _]; [reflexivity |].
  inversion H2 as [| ? ? Hitem2 _]; subst.
  unfold other_keys. simpl. now rewrite Hitem1, Hitem2.
Qed.

Lemma format_scalar_field (v : jvalue) :
  format (scalar_field dict_str v) = str_of_json dict_str v.
Proof. destruct v; reflexivity. Qed.

(** The truth value of a well-shaped ['torrent'] and of its typed reading *)
Lemma torrent_truthy_typed (torrent_data : list (pystr * jvalue)) :
  string_or_missing (lookup (lit "gameDOXType") torrent_data) = true ->
  torrent_truthy
    {| torrent_gameDOXType :=
         string_field (lookup (lit "gameDOXType") torrent_data);
       torrent_other_keys := other_keys [lit "gameDOXType"] torrent_data |}
  = nonempty torrent_data.
Proof.
  intros H. unfold torrent_truthy. cbn [torrent_gameDOXType torrent_other_keys].
  destruct (lookup (lit "gameDOXType") torrent_data) as [v |] eqn:E.
  - destruct v; try discriminate. cbn [string_field is_some orb].
    symmetry. exact (lookup_some_nonempty _ _ E).
  - cbn [string_field is_some orb]. now apply other_keys_all_1.
Qed.

(** On a well-shaped ['torrent'] the two readings give one subcategory. *)
Lemma subcategory_of_typed (torrent_data : list (pystr * jvalue)) :
  string_or_missing (lookup (lit "gameDOXType") torrent_data) = true ->
  subcategory_of (JDict torrent_data)
  = Done (subcategory
            {| torrent_gameDOXType :=
                 string_field (lookup (lit "gameDOXType") torrent_data);
               torrent_other_keys :=
                 other_keys [lit "gameDOXType"] torrent_data |}).
Proof.
  intros H. unfold subcategory_of, subcategory.
  rewrite (torrent_truthy_typed _ H). cbn [json_truthy].
  destruct (nonempty torrent_data); [| reflexivity].
  cbn [get_method and_then torrent_gameDOXType].
  destruct (lookup (lit "gameDOXType") torrent_data) as [v |];
    [destruct v; try discriminate |]; reflexivity.
Qed.

Lemma subcategory_of_empty : subcategory_of (JDict []) = Done (subcategory empty_torrent).
Proof. reflexivity. Qed.

(** The rest of the deriver once its two sections are dictionaries *)
Lemma sections_typed (group : list (pystr * jvalue)) (torrent_json : jvalue)
    (torrent_data : torrent_dict) :
  string_or_missing (lookup (lit "platform") group) = true ->
  string_or_missing (lookup (lit "name") group) = true ->
  subcategory_of torrent_json = Done (subcategory torrent_data) ->
  (let! platform := get_method (JDict group) (lit "platform") (JStr []) in
   let! platform := strip_method platform in
   let! game_name := get_method (JDict group) (lit "name")
                       (JStr (lit "Unknown Game")) in
   let! year := get_method (JDict group) (lit "year") (JStr (lit "Unknown")) in
   let! subcategory := subcategory_of torrent_json in
   let manufacturer := manufacturer platform in
   let! clean_name := clean_name_of game_name in
   Done (Some (lit "Games/" ++ manufacturer ++ lit "/" ++ platform
               ++ lit "/" ++ clean_name ++ lit " ("
               ++ str_of_json dict_str year ++ lit ")" ++ subcategory)))
  = let typed_group :=
      {| group_platform := string_field (lookup (lit "platform") group);
         group_name := string_field (lookup (lit "name") group);
         group_year := option_map (scalar_field dict_str)
                         (lookup (lit "year") group) |} in
    let platform := strip (get (group_platform typed_group) []) in
    Done (Some (lit "Games/" ++ manufacturer platform ++ lit "/" ++ platform
                ++ lit "/"
                ++ clean_name (get (group_name typed_group) (lit "Unknown Game"))
                ++ lit " ("
                ++ format (get (group_year typed_group) (Text (lit "Unknown")))
                ++ lit ")" ++ subcategory torrent_data)).
Proof.
  intros Hplatform Hname Hsub. cbn [get_method and_then].
  cbv zeta. cbn [group_platform group_name group_year].
  destruct (lookup (lit "platform") group) as [p |];
    [destruct p; try discriminate |];
    (destruct (lookup (lit "name") group) as [n |];
       [destruct n; try discriminate |]);
    cbn [get strip_method and_then string_field clean_name_of];
    rewrite Hsub; cbn [and_then];
    (destruct (lookup (lit "year") group) as [y |];
       cbn [get option_map]; [rewrite format_scalar_field |]; reflexivity).
Qed.

(** On well-shaped metadata the deriver does what the typed deriver
    does on its typed reading. *)
Lemma create_category_json_typed (items : list (pystr * jvalue))
    (torrent_hash : option pystr) :
  nonempty items = true -> well_shaped (JDict items) = true ->
  api_truthy (typed dict_str (JDict items)) = true /\
  create_category_json dict_str (JDict items) torrent_hash
  = Done (create_category (Some (typed dict_str (JDict items))) torrent_hash).
Proof.
  intros Hne Hshape. unfold well_shaped in Hshape.
  apply andb_true_iff in Hshape. destruct Hshape as [Hg Ht].
  assert (Htruthy : api_truthy (typed dict_str (JDict items)) = true).
  { unfold api_truthy, typed. cbn [api_group api_torrent api_other_keys].
    destruct (lookup (lit "group") items) as [g |] eqn:Eg.
    - destruct g; try discriminate. reflexivity.
    - destruct (lookup (lit "torrent") items) as [t |] eqn:Et.
      + destruct t; try discriminate. reflexivity.
      + cbn [is_some orb]. now rewrite other_keys_all_2. }
  split; [exact Htruthy |].
  unfold create_category. rewrite Htruthy. cbn [negb].
  unfold create_category_json. cbn [json_truthy]. rewrite Hne. cbn [negb].
  cbn [get_method and_then]. unfold typed. cbn [api_group api_torrent].
  destruct (lookup (lit "group") items) as [g |].
  - destruct g as [| | | | group |]; try discriminate.
    apply andb_true_iff in Hg. destruct Hg as [Hp Hn].
    destruct (lookup (lit "torrent") items) as [t |].
    + destruct t as [| | | | torrent_data |]; try discriminate.
      cbn [get keys_method and_then].
      exact (@sections_typed group _ _ Hp Hn (@subcategory_of_typed _ Ht)).
    + cbn [get keys_method and_then].
      exact (@sections_typed group _ _ Hp Hn subcategory_of_empty).
  - destruct (lookup (lit "torrent") items) as [t |].
    + destruct t as [| | | | torrent_data |]; try discriminate.
      cbn [get keys_method and_then].
      exact (@sections_typed [] _ _ eq_refl eq_refl
               (@subcategory_of_typed _ Ht)).
    + cbn [get keys_method and_then].
      exact (@sections_typed [] _ _ eq_refl eq_refl subcategory_of_empty).
Qed.

(** On metadata of another shape the deriver raises. *)
Lemma create_category_json_raises (api_data : jvalue)
    (torrent_hash : option pystr) :
  json_truthy api_data = true -> well_shaped api_data = false ->
  exists e, create_category_json dict_str api_data torrent_hash = Throws e.
Proof.
  intros Htruthy Hshape. unfold create_category_json. rewrite Htruthy.
  cbn [negb].
  destruct api_data as [| b | z | s | items | truth shown];
    try (eexists; reflexivity).
  unfold well_shaped in Hshape. cbn [get_method and_then].
  destruct (lookup (lit "group") items) as [g |]; cbn [get].
  - destruct g as [| | | | group |]; try (eexists; reflexivity).
    cbn [keys_method and_then].
    destruct (lookup (lit "torrent") items) as [t |]; cbn [get].
    + destruct t as [| | | | torrent_data |]; try (eexists; reflexivity).
      cbn [keys_method and_then get_method].
      destruct (lookup (lit "platform") group) as [p |]; cbn [get];
        [destruct p; try (eexists; reflexivity) |];
        cbn [strip_method and_then];
        (unfold subcategory_of; cbn [json_truthy get_method and_then];
         destruct (lookup (lit "gameDOXType") torrent_data) as [d |] eqn:Ed;
         [ rewrite (lookup_some_nonempty _ _ Ed); cbn [get];
           destruct d; try (eexists; reflexivity)
         | destruct (nonempty torrent_data); cbn [get] ];
         cbn [strip_method and_then];
         (destruct (lookup (lit "name") group) as [n |]; cbn [get];
          [destruct n; try (eexists; reflexivity) |]);
         discriminate).
    + cbn [keys_method and_then get_method].
      destruct (lookup (lit "platform") group) as [p |]; cbn [get];
        [destruct p; try (eexists; reflexivity) |];
        cbn [strip_method and_then];
        (destruct (lookup (lit "name") group) as [n |]; cbn [get];
         [destruct n; try (eexists; reflexivity) |]);
        discriminate.
  - cbn [keys_method and_then].
    destruct (lookup (lit "torrent") items) as [t |]; cbn [get].
    + destruct t as [| | | | torrent_data |]; try (eexists; reflexivity).
      cbn [keys_method and_then get_method lookup find get strip_method].
      unfold subcategory_of. cbn [json_truthy get_method and_then].
      destruct (lookup (lit "gameDOXType") torrent_data) as [d |] eqn:Ed;
        [ rewrite (lookup_some_nonempty _ _ Ed); cbn [get];
          destruct d; try (eexists; reflexivity)
        | destruct (nonempty torrent_data); cbn [get] ];
        discriminate.
    + discriminate.
Qed.

End UntypedFacts.




(* ================================================================== *)
(** * Reasoning about runs *)
(* ================================================================== *)

Section Keeps.
Variable W : Type.
Variable R : state W -> state W -> Prop.
Variable ok : event -> bool.
Hypothesis R_refl : forall s, R s s.
Hypothesis R_trans : forall a b c, R a b -> R b c -> R a c.
Hypothesis R_after : forall ev s, ok ev = true -> R s (after ev s).
Hypothesis R_world : forall w s, R s (in_world w s).

Lemma keeps_ret (A : Type) (a : A) : keeps R (ret (W:=W) a).
Proof. intros s. apply R_refl. Qed.

Lemma keeps_raise (A : Type) (e : exn) : keeps R (raise (W:=W) (A:=A) e).
Proof. intros s. apply R_refl. Qed.

Lemma keeps_bind (A B : Type) (m : M W A) (k : A -> M W B) :
  keeps R m -> (forall a, keeps R (k a)) -> keeps R (bind m k).
Proof.
  intros Hm Hk s. unfold bind. specialize (Hm s).
  destruct (m s) as [[a | e] s']; simpl in *.
  - eapply R_trans; [exact Hm | apply Hk].
  - exact Hm.
Qed.

Lemma keeps_try_except (A : Type) (caught : exn -> bool) (body : M W A)
    (handler : exn -> M W A) :
  keeps R body -> (forall e, keeps R (handler e)) ->
  keeps R (try_except caught body handler).
Proof.
  intros Hb Hh s. unfold try_except. specialize (Hb s).
  destruct (body s) as [[a | e] s']; simpl in *.
  - exact Hb.
  - destruct (caught e); simpl.
    + eapply R_trans; [exact Hb | apply Hh].
    + exact Hb.
Qed.

Lemma keeps_emit (ev : event) : ok ev = true -> keeps R (emit (W:=W) ev).
Proof. intros H s. now apply R_after. Qed.

Lemma keeps_log (lv : level) (m : message) :
  ok (Log lv m) = true -> keeps R (log (W:=W) lv m).
Proof. apply keeps_emit. Qed.

Lemma keeps_sleep (n : nat) : ok (Sleep n) = true -> keeps R (sleep (W:=W) n).
Proof. apply keeps_emit. Qed.

Lemma keeps_get_logged_in : keeps R (get_logged_in (W:=W)).
Proof. intros s. apply R_refl. Qed.

Lemma keeps_request (A : Type) (c : call) (endpoint : W -> reply A * W) :
  ok (Request c) = true -> keeps R (request c endpoint).
Proof.
  intros H s. unfold request.
  destruct (endpoint (world s)) as [r w].
  assert (Hs : R s (after (Request c) (in_world w s))).
  { eapply R_trans; [apply R_world | now apply R_after]. }
  destruct r; exact Hs.
Qed.

Lemma keeps_json_of (A : Type) (r : response A) : keeps R (json_of (W:=W) r).
Proof.
  unfold json_of. destruct (json r); [apply keeps_ret | apply keeps_raise].
Qed.

End Keeps.

(** Takes a goal [keeps R m] apart along the structure of [m]; what is
    left are the side conditions on the events [m] emits. *)
Ltac keeps_step Hrefl Htrans Hafter Hworld :=
  first
    [ apply (@keeps_ret _ _ Hrefl)
    | apply (@keeps_raise _ _ Hrefl)
    | apply (@keeps_get_logged_in _ _ Hrefl)
    | apply (@keeps_json_of _ _ Hrefl)
    | apply (@keeps_bind _ _ Htrans); [| intros ?]
    | apply (@keeps_try_except _ _ Htrans); [| intros ?]
    | apply (@keeps_log _ _ _ Hafter)
    | apply (@keeps_sleep _ _ _ Hafter)
    | apply (@keeps_request _ _ _ Htrans Hafter Hworld)
    | match goal with
      | |- keeps _ (if ?b then _ else _) => destruct b
      | |- keeps _ (match ?o with Some _ => _ | None => _ end) => destruct o
      end ].

Section RelationFacts.
Variable W : Type.

Lemma tag_outcomes_app (a b : list event) :
  tag_outcomes (a ++ b) = (tag_outcomes a + tag_outcomes b)%nat.
Proof. unfold tag_outcomes. now rewrite filter_app, length_app. Qed.

Lemma same_tag_outcomes_refl (s : state W) : same_tag_outcomes s s.
Proof. reflexivity. Qed.

Lemma same_tag_outcomes_trans (a b c : state W) :
  same_tag_outcomes a b -> same_tag_outcomes b c -> same_tag_outcomes a c.
Proof. unfold same_tag_outcomes. congruence. Qed.

Lemma same_tag_outcomes_after (ev : event) (s : state W) :
  negb (is_tag_outcome ev) = true -> same_tag_outcomes s (after ev s).
Proof.
  intros H. apply negb_true_iff in H. unfold same_tag_outcomes, after. simpl.
  rewrite tag_outcomes_app. unfold tag_outcomes at 2. simpl. rewrite H.
  simpl. lia.
Qed.

Lemma same_tag_outcomes_world (w : W) (s : state W) :
  same_tag_outcomes s (in_world w s).
Proof. reflexivity. Qed.

Lemma extends_refl (s : state W) : extends s s.
Proof. exists []. now rewrite app_nil_r. Qed.

Lemma extends_trans (a b c : state W) : extends a b -> extends b c -> extends a c.
Proof.
  intros [x Hx] [y Hy]. exists (x ++ y). now rewrite Hy, Hx, app_assoc.
Qed.

Lemma extends_after (ev : event) (s : state W) :
  true = true -> extends s (after ev s).
Proof. intros _. now exists [ev]. Qed.

Lemma extends_world (w : W) (s : state W) : extends s (in_world w s).
Proof. exists []. simpl. now rewrite app_nil_r. Qed.

Lemma same_login_refl (s : state W) : same_login s s.
Proof. reflexivity. Qed.

Lemma same_login_trans (a b c : state W) :
  same_login a b -> same_login b c -> same_login a c.
Proof. unfold same_login. congruence. Qed.

Lemma same_login_after (ev : event) (s : state W) :
  true = true -> same_login s (after ev s).
Proof. reflexivity. Qed.

Lemma same_login_world (w : W) (s : state W) : same_login s (in_world w s).
Proof. reflexivity. Qed.

End RelationFacts.

Ltac quiet :=
  match goal with
  | |- @keeps ?W _ _ _ =>
      repeat keeps_step (@same_tag_outcomes_refl W) (@same_tag_outcomes_trans W)
                        (@same_tag_outcomes_after W) (@same_tag_outcomes_world W)
  end;
  try reflexivity.

Section Quiet.
Context {rt : Runtime}.
Variable W : Type.
Variable srv : server W.

Lemma get_torrent_trackers_quiet self hash :
  keeps (@same_tag_outcomes W) (get_torrent_trackers srv self hash).
Proof. unfold get_torrent_trackers. quiet. Qed.

Lemma set_torrent_category_quiet self hash category :
  keeps (@same_tag_outcomes W) (set_torrent_category srv self hash category).
Proof. unfold set_torrent_category, client_create_category. quiet. Qed.

Lemma add_torrent_tags_quiet self hash tags :
  keeps (@same_tag_outcomes W) (add_torrent_tags srv self hash tags).
Proof. unfold add_torrent_tags. quiet. Qed.

Lemma get_torrent_quiet self hash :
  keeps (@same_tag_outcomes W) (get_torrent srv self hash).
Proof. unfold get_torrent, read_response. quiet. Qed.

Lemma report_no_category_quiet name api_data :
  keeps (@same_tag_outcomes W) (report_no_category (W:=W) name api_data).
Proof. unfold report_no_category. quiet. Qed.

End Quiet.

(* ================================================================== *)
(** * Claims about the download client's adapter *)
(* ================================================================== *)

(** C2, as the claim has it, fails: a conflict is not always followed by
    a retry.  The server answers 409 to the assignment and refuses the
    creation; the adapter then reports failure after one assignment
    request. *)
Lemma refused_creation_is_not_retried :
  let category := lit "Games/Sony/PlayStation 4/Foo (2019)" in
  let hash := Some (lit "ab12") in
  let run := set_torrent_category (demo_server [] CreateRefused) demo_client
               hash category (start [] true) in
  fst (on_setCategory (demo_server [] CreateRefused) hash category [])
    = answer 409 None /\
  fst run = Returns false /\
  trace (snd run)
    = [ Request (torrents_setCategory hash category);
        Log info (CategoryMissing category);
        Request (torrents_createCategory category []);
        Log error (CreateCategoryFailed category) ].
Proof. repeat split. Qed.

(** C2, amended.  An authenticated call whose requests are answered: if
    the assignment is answered by anything but 409, that is the only
    request and the call reports whether the status was 200.  If it is
    answered by 409 the adapter asks for the category to be created; if
    that is answered by 200 it sends the assignment once more, and only
    once, and reports whether this second status was 200, so the conflict
    never reaches the caller; if the creation is refused it reports
    failure without a retry. *)
Theorem set_torrent_category_recovers_from_conflict (W : Type)
    (srv : server W) (self : QBittorrentClient) (hash : option pystr)
    (category : pystr) (s : state W) (r1 : response unit) (w1 : W) :
  logged_in s = true ->
  on_setCategory srv hash category (world s) = (Answers r1, w1) ->
  let assign := Request (torrents_setCategory hash category) in
  let create := Request (torrents_createCategory category []) in
  let s1 := after assign (in_world w1 s) in
  (status_code r1 <> 409%Z ->
   set_torrent_category srv self hash category s
   = (Returns (status_code r1 =? 200)%Z, s1)) /\
  (status_code r1 = 409%Z ->
   forall r2 w2,
     on_createCategory srv category [] w1 = (Answers r2, w2) ->
     let s2 := after create
                 (in_world w2 (after (Log info (CategoryMissing category)) s1)) in
     (status_code r2 = 200%Z ->
      forall r3 w3,
        on_setCategory srv hash category w2 = (Answers r3, w3) ->
        set_torrent_category srv self hash category s
        = (Returns (status_code r3 =? 200)%Z,
           after assign
             (in_world w3 (after (Log info (CategoryCreated category)) s2)))) /\
     (status_code r2 <> 200%Z ->
      set_torrent_category srv self hash category s
      = (Returns false, after (Log error (CreateCategoryFailed category)) s2))).
Proof.
  intros Hlogin H1 assign create s1.
  destruct s as [w authenticated tr]. simpl in Hlogin, H1. subst authenticated.
  split.
  - intros Hstatus. apply Z.eqb_neq in Hstatus.
    unfold set_torrent_category, bind, get_logged_in, request. simpl.
    rewrite H1, Hstatus. reflexivity.
  - intros Hstatus r2 w2 H2 s2. apply Z.eqb_eq in Hstatus. split.
    + intros Hcreated r3 w3 H3. apply Z.eqb_eq in Hcreated.
      unfold set_torrent_category, client_create_category, bind,
        get_logged_in, request, log, emit, ret. simpl.
      rewrite H1, Hstatus. simpl. rewrite H2, Hcreated. simpl.
      rewrite H3. reflexivity.
    + intros Hrefused. apply Z.eqb_neq in Hrefused.
      unfold set_torrent_category, client_create_category, bind,
        get_logged_in, request, log, emit, ret. simpl.
      rewrite H1, Hstatus. simpl. rewrite H2, Hrefused. reflexivity.
Qed.

(** C2, amended, at a category the download client does not know yet *)
Lemma unknown_category_is_created_and_set :
  let category := lit "Games/Sony/PlayStation 4/Foo (2019)" in
  let hash := Some (lit "ab12") in
  set_torrent_category (demo_server [] NoFault) demo_client hash category
    (start [] true)
  = (Returns true,
     {| world := [category]; logged_in := true;
        trace := [ Request (torrents_setCategory hash category);
                   Log info (CategoryMissing category);
                   Request (torrents_createCategory category []);
                   Log info (CategoryCreated category);
                   Request (torrents_setCategory hash category) ] |}).
Proof.
  intros category hash.
  destruct (set_torrent_category_recovers_from_conflict
              (demo_server [] NoFault) demo_client hash category
              (start [] true) (r1:={| status_code := 409; text := [];
                                      json := None |}) (w1:=[])
              eq_refl eq_refl) as [_ H].
  destruct (H eq_refl {| status_code := 200; text := []; json := None |}
              [category] eq_refl) as [H' _].
  exact (H' eq_refl {| status_code := 200; text := []; json := None |}
            [category] eq_refl).
Defined.

(** C4.  An item whose only tags are [GGn-Sorted-old] and [keep] does
    not bear the marker [GGn-Sorted], yet the listing leaves it out: line
    71 tests whether the marker occurs in the tags text, not whether it
    is one of the tags. *)
Theorem longer_tag_is_taken_for_the_marker (rt : Runtime) :
  let listed := item "ab12" "Foo" "GGn-Sorted-old, keep" in
  tag_set (lit "GGn-Sorted-old, keep") = [lit "GGn-Sorted-old"; lit "keep"] /\
  bears_marker listed = false /\
  unprocessed [listed] = [] /\
  fst (get_torrents (demo_server [listed] NoFault) demo_client (start [] true))
  = Returns (Some []).
Proof. repeat split. Qed.

(* ================================================================== *)
(** * Claims about the driver *)
(* ================================================================== *)

Section Tally.
Variable W : Type.

Lemma tallies_ret (n : nat) : tallies n (ret (W:=W) n).
Proof. intros s. reflexivity. Qed.

Lemma tallies_bind (A : Type) (n : nat) (m : M W A) (k : A -> M W nat) :
  keeps (@same_tag_outcomes W) m -> (forall a, tallies n (k a)) ->
  tallies n (bind m k).
Proof.
  intros Hm Hk s. unfold bind. specialize (Hm s). unfold same_tag_outcomes in Hm.
  destruct (m s) as [[a | e] s1]; simpl in Hm.
  - specialize (Hk a s1). destruct (k a s1) as [[j | e] s2]; lia.
  - exact Hm.
Qed.

Lemma tallies_try_except (n : nat) (caught : exn -> bool) (body : M W nat)
    (handler : exn -> M W nat) :
  tallies n body -> (forall e, tallies n (handler e)) ->
  tallies n (try_except caught body handler).
Proof.
  intros Hb Hh s. unfold try_except. specialize (Hb s).
  destruct (body s) as [[k | e] s1].
  - exact Hb.
  - destruct (caught e).
    + specialize (Hh e s1). destruct (handler e s1) as [[j | e'] s2]; lia.
    + exact Hb.
Qed.

(** One tagging record, and the count goes up by one. *)
Lemma tallies_tagged (n : nat) (lv : level) (m : message) :
  is_tag_outcome (Log lv m) = true ->
  tallies n (log (W:=W) lv m ;; ret (n + 1)%nat).
Proof.
  intros H s.
  assert (Hone : tag_outcomes [Log lv m] = 1%nat).
  { unfold tag_outcomes. cbn [filter]. now rewrite H. }
  unfold bind, log, emit, ret. cbn [trace].
  rewrite tag_outcomes_app, Hone. lia.
Qed.

End Tally.

Section DriverFacts.
Context {rt : Runtime}.
Variable W : Type.
Variable srv : server W.

Lemma categorise_tallies qb_client name hash_id api_data n :
  tallies n (categorise srv qb_client name hash_id api_data n).
Proof.
  unfold categorise. apply tallies_try_except.
  - destruct (negb (truthy_str (create_category api_data hash_id))).
    + apply tallies_bind; [apply report_no_category_quiet |].
      intros _. apply tallies_ret.
    + apply tallies_bind; [quiet |]. intros _.
      apply tallies_bind; [apply set_torrent_category_quiet |].
      intros [|].
      * apply tallies_bind; [quiet |]. intros _.
        apply tallies_bind; [apply add_torrent_tags_quiet |].
        intros [|]; now apply tallies_tagged.
      * apply tallies_bind; [quiet |]. intros _. apply tallies_ret.
  - intros e. apply tallies_bind; [quiet |]. intros _.
    apply tallies_bind; [quiet |]. intros _. apply tallies_ret.
Qed.

Lemma process_tallies qb_client ggn_client torrent n :
  tallies n (process srv qb_client ggn_client torrent n).
Proof.
  unfold process.
  apply tallies_bind; [apply get_torrent_trackers_quiet |]. intros trackers.
  destruct (is_gazelle_games_tracker trackers); [| apply tallies_ret].
  apply tallies_bind; [quiet |]. intros _.
  apply tallies_bind; [quiet |]. intros _.
  apply tallies_bind; [apply get_torrent_quiet |]. intros api_data.
  destruct (negb (truthy_data api_data)).
  - apply tallies_bind; [quiet |]. intros _. apply tallies_ret.
  - apply categorise_tallies.
Qed.

Lemma for_each_tallies qb_client ggn_client torrents :
  forall n s m s',
    for_each srv qb_client ggn_client torrents n s = (Returns m, s') ->
    (m + tag_outcomes (trace s) = n + tag_outcomes (trace s'))%nat.
Proof.
  induction torrents as [| torrent rest IH]; intros n s m s' H; simpl in H.
  - unfold ret in H. injection H as <- <-. reflexivity.
  - unfold bind in H.
    pose proof (process_tallies qb_client ggn_client torrent n s) as Hp.
    destruct (process srv qb_client ggn_client torrent n s) as [[k | e] s1];
      [| discriminate].
    apply IH in H. lia.
Qed.

Lemma get_torrents_quiet self :
  keeps (@same_tag_outcomes W) (get_torrents srv self).
Proof. unfold get_torrents. quiet. Qed.

End DriverFacts.

(** C3.  Two unprocessed torrents are listed and the request for the
    trackers of the first one times out.  The exception leaves [main]:
    the run ends there, the second torrent is never looked at and no
    summary is logged.  The call on line 371 stands outside the [try]
    that guards the rest of the loop body. *)
Theorem tracker_timeout_aborts_the_run (rt : Runtime) :
  let listing := [item "ab12" "Foo" ""; item "cd34" "Bar" ""] in
  let run := main (demo_server listing TrackersTimeOut) demo_environ
               (start [] false) in
  fst run = Raised (RequestException ReadTimeout) /\
  filter is_request (trace (snd run))
    = [ Request (auth_login (lit "admin") (lit "secret"));
        Request torrents_categories;
        Request torrents_info;
        Request (torrents_trackers (Some (lit "ab12"))) ] /\
  filter is_result_record (trace (snd run)) = [].
Proof. repeat split. Qed.

(** When the category of a torrent has been set and the tagging call
    returns, with success or with failure, the count goes up by one: a
    failure of the tagging is a warning in the log and nothing else, no
    request follows it.  Over the whole list the count grows by the
    number of tagging calls that returned, each of which has left one
    record ([TagAdded] or [TagFailed]) in the log; and the summary of a
    run that processed a list reports that number. *)
Lemma count_follows_the_tagging_call (rt : Runtime) (W : Type) (srv : server W)
    (qb_client : QBittorrentClient) (ggn_client : GazelleGamesAPI)
    (name : pystr) (hash_id : option pystr) (api_data : option api_dict)
    (updated_count : nat) (s : state W) (category : pystr)
    (s1 : state W) (tagged : bool) (s2 : state W) :
  create_category api_data hash_id = Some category ->
  nonempty category = true ->
  set_torrent_category srv qb_client hash_id category
    (after (Log info (CategoryDerived category)) s) = (Returns true, s1) ->
  add_torrent_tags srv qb_client hash_id GGn_Sorted
    (after (Log info (CategoryUpdated category)) s1) = (Returns tagged, s2) ->
  categorise srv qb_client name hash_id api_data updated_count s
  = (Returns (updated_count + 1)%nat,
     after (if tagged then Log debug (TagAdded name)
            else Log warning (TagFailed name)) s2) /\
  (forall torrents n s0 m s',
     for_each srv qb_client ggn_client torrents n s0 = (Returns m, s') ->
     (m + tag_outcomes (trace s0) = n + tag_outcomes (trace s'))%nat) /\
  (forall s0 s',
     sort_torrents srv qb_client ggn_client s0 = (Returns tt, s') ->
     (exists earlier, trace s' = earlier ++ [Log error RetrieveFailed]) \/
     (exists earlier m,
        trace s' = earlier ++ [Log info (Summary m)] /\
        (m + tag_outcomes (trace s0) = tag_outcomes earlier)%nat)).
Proof.
  intros Hcategory Hnonempty Hset Htag. repeat split.
  - unfold categorise, try_except, bind. rewrite Hcategory. simpl.
    rewrite Hnonempty. simpl. unfold log at 1, emit at 1.
    fold (after (Log info (CategoryDerived category)) s). rewrite Hset.
    unfold log at 1, emit at 1.
    fold (after (Log info (CategoryUpdated category)) s1). rewrite Htag.
    destruct tagged; reflexivity.
  - apply for_each_tallies.
  - intros s0 s' H. unfold sort_torrents, bind in H.
    pose proof (get_torrents_quiet srv qb_client s0) as Hq.
    unfold same_tag_outcomes in Hq.
    destruct (get_torrents srv qb_client s0) as [[torrents | e] sa];
      [| discriminate].
    simpl in Hq. destruct (negb (truthy_list torrents)).
    + left. unfold log, emit in H. injection H as <-. simpl.
      now exists (trace sa).
    + right.
      destruct (for_each srv qb_client ggn_client (get torrents []) 0 sa)
        as [[m | e] sb] eqn:Hloop; [| discriminate].
      apply for_each_tallies in Hloop.
      unfold log, emit in H. injection H as <-. simpl.
      exists (trace sb), m. split; [reflexivity | lia].
Qed.

(** C7.  The category of the one torrent is set, the tagging request
    times out, and the run reports a count of zero: the exception of the
    tagging call is caught by the [except] of line 412, past the
    increment of line 409, so the torrent whose category was applied is
    not counted; its category stays set.  The same torrent, when the
    tagging request is answered with status 500 and so reports its
    failure by returning [False], is counted. *)
Theorem tagging_timeout_loses_the_count :
  let category := lit "Games/Sony/PlayStation 4/Foo (2019)" in
  let timed_out := main (rt:=ascii_runtime)
                     (demo_server [item "ab12" "Foo" ""] TagsTimeOut)
                     demo_environ (start [] false) in
  let refused := main (rt:=ascii_runtime)
                   (demo_server [item "ab12" "Foo" ""] TagsRefused)
                   demo_environ (start [] false) in
  fst timed_out = Returns tt /\
  filter is_result_record (trace (snd timed_out))
    = [ Log info (CategoryUpdated category);
        Log error (CategoryException (lit "Foo") (RequestException ReadTimeout));
        Log info (Summary 0) ] /\
  world (snd timed_out) = [category] /\
  fst refused = Returns tt /\
  filter is_result_record (trace (snd refused))
    = [ Log info (CategoryUpdated category);
        Log warning (TagFailed (lit "Foo"));
        Log info (Summary 1) ] /\
  world (snd refused) = [category].
Proof. repeat split. Qed.

(** C10.  A listing that comes back empty is handled as a listing that
    failed: whether [get_torrents] returns [None] or the empty list, the
    driver logs the retrieval failure and returns; nothing is requested
    after the listing and no summary is logged.  This is what happens
    when every listed item carries the marker. *)
Theorem empty_listing_ends_the_run (rt : Runtime) (W : Type) (srv : server W)
    (qb_client : QBittorrentClient) (ggn_client : GazelleGamesAPI)
    (s : state W) (torrents : option (list torrent)) (s1 : state W) :
  get_torrents srv qb_client s = (Returns torrents, s1) ->
  torrents = None \/ torrents = Some [] ->
  sort_torrents srv qb_client ggn_client s
  = (Returns tt, after (Log error RetrieveFailed) s1) /\
  (forall all_torrents w,
     logged_in s = true ->
     on_info srv (world s)
     = (Answers {| status_code := 200; text := []; json := Some all_torrents |},
        w) ->
     forallb (fun t => contains GGn_Sorted (get (info_tags t) [])) all_torrents
     = true ->
     torrents = Some [] /\
     trace s1 = trace s ++ [ Request torrents_info;
                             Log info (Retrieved 0 (List.length all_torrents)) ]).
Proof.
  intros Hlist Hempty. split.
  - unfold sort_torrents, bind. rewrite Hlist.
    destruct Hempty as [-> | ->]; reflexivity.
  - intros all_torrents w Hlogin Hinfo Hall.
    assert (Hnone : unprocessed all_torrents = []).
    { unfold unprocessed. clear Hinfo.
      induction all_torrents as [| t rest IH]; [reflexivity |].
      simpl in Hall. apply andb_true_iff in Hall. destruct Hall as [Ht Hrest].
      simpl. rewrite Ht. simpl. now apply IH. }
    unfold get_torrents, bind, get_logged_in, request in Hlist.
    rewrite Hlogin in Hlist. simpl in Hlist. rewrite Hinfo in Hlist.
    simpl in Hlist. unfold ret, log, emit in Hlist. simpl in Hlist.
    rewrite Hnone in Hlist. simpl in Hlist.
    injection Hlist as <- <-. split; [reflexivity |].
    simpl. now rewrite <- app_assoc.
Qed.

(** C10, at a listing whose two items both carry the marker *)
Lemma all_sorted_ends_the_run :
  let listing := [item "ab12" "Foo" "GGn-Sorted"; item "cd34" "Bar" "x, GGn-Sorted"] in
  sort_torrents (rt:=ascii_runtime) (demo_server listing NoFault) demo_client
    demo_catalogue (start [] true)
  = (Returns tt,
     {| world := []; logged_in := true;
        trace := [ Request torrents_info; Log info (Retrieved 0 2);
                   Log error RetrieveFailed ] |}).
Proof.
  intros listing.
  exact (proj1 (empty_listing_ends_the_run ascii_runtime
                  (demo_server listing NoFault) demo_client demo_catalogue
                  (start [] true) (torrents:=Some [])
                  (s1:={| world := []; logged_in := true;
                          trace := [ Request torrents_info;
                                     Log info (Retrieved 0 2) ] |})
                  eq_refl (or_intror eq_refl))).
Defined.

(* ================================================================== *)
(** * Further properties: the pure functions *)
(* ================================================================== *)

Section TrackerFilter.
Context {rt : Runtime}.

Lemma any_gazelle_Exists (trackers : list tracker) :
  any_gazelle trackers = true <->
  Exists (fun t => contains (lit "gazellegames.net")
                     (lower (get (tracker_url t) [])) = true) trackers.
Proof.
  induction trackers as [| t rest IH]; simpl.
  - split; [discriminate | intros H; inversion H].
  - destruct (contains (lit "gazellegames.net") (lower (get (tracker_url t) [])))
      eqn:Ht.
    + split; [intros _; now left | reflexivity].
    + rewrite IH. split.
      * intros H. now right.
      * intros H. inversion H as [? ? Hhead | ? ? Htail]; subst;
          [congruence | assumption].
Qed.

End TrackerFilter.

(** X1.  The tracker filter answers true exactly when it is given a list
    and the URL of one of its entries, lowercased, contains
    [gazellegames.net]; an entry without a URL counts as the empty URL.
    [None] and the empty list give false. *)
Theorem tracker_filter_finds_gazelle (rt : Runtime)
    (trackers : option (list tracker)) :
  is_gazelle_games_tracker trackers = true <->
  exists l,
    trackers = Some l /\
    Exists (fun t => contains (lit "gazellegames.net")
                       (lower (get (tracker_url t) [])) = true) l.
Proof.
  unfold is_gazelle_games_tracker. destruct trackers as [l |].
  - destruct l as [| t rest].
    + simpl. split; [discriminate |].
      intros [l [Hl H]]. injection Hl as <-. inversion H.
    + change (negb (nonempty (t :: rest))) with false. cbv iota.
      rewrite any_gazelle_Exists. split.
      * intros H. now exists (t :: rest).
      * intros [l [Hl H]]. now injection Hl as <-.
  - split; [discriminate | intros [l [Hl _]]; discriminate].
Qed.

Section TagSets.
Context {rt : Runtime}.

Lemma split_on_head (separator : N) (s word : pystr) (words : list pystr) :
  split_on separator s = word :: words -> exists after, s = word ++ after.
Proof.
  revert word words. induction s as [| c rest IH]; intros word words H.
  - simpl in H. injection H as <- _. now exists [].
  - simpl in H. destruct (c =? separator)%N.
    + injection H as <- _. now exists (c :: rest).
    + destruct (split_on separator rest) as [| w ws] eqn:E.
      * injection H as <- _. destruct rest as [| d rest'].
        -- now exists [].
        -- simpl in E. destruct (d =? separator)%N; [discriminate |].
           destruct (split_on separator rest'); discriminate.
      * injection H as <- _. destruct (IH w ws eq_refl) as [after Hafter].
        exists after. simpl. now rewrite <- Hafter.
Qed.

Lemma split_on_within (separator : N) (s word : pystr) :
  In word (split_on separator s) -> exists before after, s = before ++ word ++ after.
Proof.
  induction s as [| c rest IH]; simpl; intros H.
  - destruct H as [<- | []]. now exists [], [].
  - destruct (c =? separator)%N.
    + destruct H as [<- | H].
      * now exists [], (c :: rest).
      * destruct (IH H) as [before [after Hrest]].
        exists (c :: before), after. simpl. now rewrite <- Hrest.
    + destruct (split_on separator rest) as [| w ws] eqn:E.
      * destruct H as [<- | []]. exists [], rest. reflexivity.
      * destruct H as [<- | H].
        -- destruct (split_on_head _ _ E) as [after Hafter].
           exists [], after. simpl. now rewrite <- Hafter.
        -- destruct (IH (or_intror H)) as [before [after Hrest]].
           exists (c :: before), after. simpl. now rewrite <- Hrest.
Qed.

Lemma lstrip_suffix (s : pystr) : exists before, s = before ++ lstrip s.
Proof.
  induction s as [| c rest [before IH]]; simpl.
  - now exists [].
  - destruct (isspace c).
    + exists (c :: before). simpl. now rewrite <- IH.
    + now exists [].
Qed.

Lemma rstrip_prefix (s : pystr) : exists after, s = rstrip s ++ after.
Proof.
  unfold rstrip. destruct (lstrip_suffix (rev s)) as [before H].
  exists (rev before). rewrite <- rev_app_distr, <- H. now rewrite rev_involutive.
Qed.

Lemma strip_within (s : pystr) : exists before after, s = before ++ strip s ++ after.
Proof.
  unfold strip. destruct (lstrip_suffix s) as [before Hb].
  destruct (rstrip_prefix (lstrip s)) as [after Ha].
  exists before, after. now rewrite <- Ha.
Qed.

Lemma tag_occurs (tags tag : pystr) :
  In tag (tag_set tags) -> contains tag tags = true.
Proof.
  unfold tag_set. intros H. apply filter_In in H. destruct H as [H _].
  apply in_map_iff in H. destruct H as [word [<- Hword]].
  apply split_on_within in Hword. destruct Hword as [b1 [a1 H1]].
  destruct (strip_within word) as [b2 [a2 H2]].
  apply contains_spec. exists (b1 ++ b2), (a2 ++ a1).
  rewrite H1. rewrite H2 at 1. now rewrite <- !app_assoc.
Qed.

Lemma marker_occurs (t : torrent) :
  bears_marker t = true -> contains GGn_Sorted (get (info_tags t) []) = true.
Proof.
  unfold bears_marker. intros H. apply existsb_exists in H.
  destruct H as [tag [Hin Heq]]. apply pystr_eqb_eq in Heq. subst tag.
  now apply tag_occurs.
Qed.

End TagSets.

(** X2.  No item that bears the marker is listed as unprocessed: every
    item of the listing that has [GGn-Sorted] among its comma-separated
    tags, with or without blanks around it, is filtered out. *)
Theorem marked_items_are_filtered_out (rt : Runtime) (all_torrents : list torrent) :
  Forall (fun t => bears_marker t = false) (unprocessed all_torrents) /\
  Forall (fun t => In t all_torrents) (unprocessed all_torrents) /\
  (List.length (unprocessed all_torrents) <= List.length all_torrents)%nat.
Proof.
  repeat split.
  - apply Forall_forall. intros t Ht. unfold unprocessed in Ht.
    apply filter_In in Ht. destruct Ht as [_ Ht].
    apply negb_true_iff in Ht.
    destruct (bears_marker t) eqn:E; [| reflexivity].
    apply marker_occurs in E. congruence.
  - apply Forall_forall. intros t Ht. unfold unprocessed in Ht.
    now apply filter_In in Ht.
  - apply filter_length_le.
Qed.

(** X3.  Whatever the platform, the manufacturer is one of eight
    labels: the seven of the table, or [Unknown]. *)
Theorem manufacturer_is_a_known_label (rt : Runtime) (platform : pystr) :
  In (manufacturer platform) manufacturers.
Proof.
  assert (Hall : forallb (fun m => existsb (pystr_eqb m) manufacturers)
                   (lit "Unknown" :: map snd manufacturer_map) = true)
    by reflexivity.
  rewrite forallb_forall in Hall.
  specialize (Hall _ (lookup_manufacturer_values manufacturer_map
                        (lower platform) (lit "Unknown"))).
  apply existsb_exists in Hall. destruct Hall as [m [Hm Heq]].
  apply pystr_eqb_eq in Heq. unfold manufacturer. now rewrite Heq.
Qed.

(** X4.  Eleven of the twenty-five entries of the table never decide.
    A key that begins with an earlier key ([xbox 360] after [xbox],
    [playstation 4] after [playstation], [wii u] after [wii], [macos]
    after [mac]) is reached only when that earlier key does not occur,
    and then it does not occur either: the manufacturer is what the
    fourteen other entries give, in their order. *)
Theorem shadowed_keys_never_decide (rt : Runtime) (platform : pystr) :
  manufacturer platform
  = lookup_manufacturer deciding_keys (lower platform) (lit "Unknown").
Proof.
  unfold manufacturer, manufacturer_map, deciding_keys.
  set (platform_lower := lower platform).
  simpl lookup_manufacturer.
  destruct (contains (lit "windows") platform_lower); [reflexivity |].
  destruct (contains (lit "pc") platform_lower); [reflexivity |].
  destruct (contains (lit "xbox") platform_lower) eqn:Hx; [reflexivity |].
  rewrite (contains_app_false (lit "xbox") (lit " 360") _ Hx
           : contains (lit "xbox 360") platform_lower = false).
  rewrite (contains_app_false (lit "xbox") (lit " one") _ Hx
           : contains (lit "xbox one") platform_lower = false).
  rewrite (contains_app_false (lit "xbox") (lit " series x") _ Hx
           : contains (lit "xbox series x") platform_lower = false).
  destruct (contains (lit "playstation") platform_lower) eqn:Hps; [reflexivity |].
  rewrite (contains_app_false (lit "playstation") (lit " 2") _ Hps
           : contains (lit "playstation 2") platform_lower = false).
  rewrite (contains_app_false (lit "playstation") (lit " 3") _ Hps
           : contains (lit "playstation 3") platform_lower = false).
  rewrite (contains_app_false (lit "playstation") (lit " 4") _ Hps
           : contains (lit "playstation 4") platform_lower = false).
  rewrite (contains_app_false (lit "playstation") (lit " 5") _ Hps
           : contains (lit "playstation 5") platform_lower = false).
  rewrite (contains_app_false (lit "playstation") (lit " portable") _ Hps
           : contains (lit "playstation portable") platform_lower = false).
  rewrite (contains_app_false (lit "playstation") (lit " vita") _ Hps
           : contains (lit "playstation vita") platform_lower = false).
  destruct (contains (lit "switch") platform_lower); [reflexivity |].
  destruct (contains (lit "nintendo 3ds") platform_lower); [reflexivity |].
  destruct (contains (lit "nintendo ds") platform_lower); [reflexivity |].
  destruct (contains (lit "wii") platform_lower) eqn:Hwii; [reflexivity |].
  rewrite (contains_app_false (lit "wii") (lit " u") _ Hwii
           : contains (lit "wii u") platform_lower = false).
  destruct (contains (lit "gamecube") platform_lower); [reflexivity |].
  destruct (contains (lit "linux") platform_lower); [reflexivity |].
  destruct (contains (lit "mac") platform_lower) eqn:Hmac; [reflexivity |].
  rewrite (contains_app_false (lit "mac") (lit "os") _ Hmac
           : contains (lit "macos") platform_lower = false).
  reflexivity.
Qed.

Section TitleSpaces.
Context {rt : Runtime}.

Lemma sub_spaces_plain (in_run : bool) (s : pystr) :
  Forall plain_space (sub_spaces in_run s).
Proof.
  revert in_run. induction s as [| c rest IH]; intros in_run; simpl.
  - constructor.
  - destruct (isspace c) eqn:Hc.
    + destruct in_run; [apply IH |].
      constructor; [intros _; reflexivity | apply IH].
    + constructor; [intros H; congruence | apply IH].
Qed.

Lemma lstrip_Forall (P : N -> Prop) (s : pystr) :
  Forall P s -> Forall P (lstrip s).
Proof.
  intros H. induction H as [| c rest Hc Hrest IH]; simpl.
  - constructor.
  - destruct (isspace c); [exact IH | now constructor].
Qed.

Lemma strip_Forall (P : N -> Prop) (s : pystr) :
  Forall P s -> Forall P (strip s).
Proof.
  intros H. unfold strip, rstrip.
  apply Forall_rev, lstrip_Forall, Forall_rev, lstrip_Forall, H.
Qed.

Lemma filter_Forall (P : N -> Prop) (f : N -> bool) (s : pystr) :
  Forall P s -> Forall P (filter f s).
Proof.
  rewrite !Forall_forall. intros H c Hc. apply filter_In in Hc. now apply H.
Qed.

End TitleSpaces.

(** X5.  The only white space a cleaned title holds is the plain space:
    tabs, line breaks and the other blanks of the title have been
    replaced, run by run, before the last substitution. *)
Theorem clean_name_has_plain_spaces (rt : Runtime) (game_name : pystr) :
  Forall (fun c => isspace c = true -> c = 32%N) (clean_name game_name).
Proof.
  unfold clean_name, keep_basic.
  apply (filter_Forall (P:=plain_space)), strip_Forall, sub_spaces_plain.
Qed.

(* ================================================================== *)
(** * Further properties: the two clients *)
(* ================================================================== *)

Lemma count_app (kind : event -> bool) (a b : list event) :
  count kind (a ++ b) = (count kind a + count kind b)%nat.
Proof. unfold count. now rewrite filter_app, length_app. Qed.

(** X6.  Before authentication every operation of the adapter reports
    failure without sending a request: the state is left as it was, but
    for the error record of [get_torrents]. *)
Theorem unauthenticated_calls_send_nothing (W : Type) (srv : server W)
    (self : QBittorrentClient) (s : state W) (hash : option pystr)
    (category save_path tags : pystr) :
  logged_in s = false ->
  get_torrents srv self s = (Returns None, after (Log error NotLoggedIn) s) /\
  get_torrent_trackers srv self hash s = (Returns None, s) /\
  get_categories srv self s = (Returns None, s) /\
  client_create_category srv self category save_path s = (Returns false, s) /\
  set_torrent_category srv self hash category s = (Returns false, s) /\
  add_torrent_tags srv self hash tags s = (Returns false, s).
Proof.
  intros H.
  unfold get_torrents, get_torrent_trackers, get_categories,
    client_create_category, set_torrent_category, add_torrent_tags, bind,
    get_logged_in.
  rewrite H. repeat split.
Qed.

(** X6, at a fresh adapter *)
Lemma fresh_adapter_lists_nothing :
  get_torrents (demo_server [item "ab12" "Foo" ""] NoFault) demo_client
    (start [] false)
  = (Returns None,
     {| world := []; logged_in := false;
        trace := [Log error NotLoggedIn] |}).
Proof.
  exact (proj1 (unauthenticated_calls_send_nothing
                  (demo_server [item "ab12" "Foo" ""] NoFault) demo_client
                  (start [] false) None [] [] [] eq_refl)).
Defined.

Section LoginFacts.
Variable W : Type.
Variable srv : server W.

(** What [login] does, by the answer of the server *)
Lemma login_run (self : QBittorrentClient) (s : state W) :
  let sent := after (Request (auth_login (username self) (password self))) in
  match on_login srv (username self) (password self) (world s) with
  | (Answers resp, w) =>
      if ((status_code resp =? 200)%Z && pystr_eqb (text resp) (lit "Ok."))%bool
      then login srv self s
           = (Returns true,
              after (Log info LoggedIn)
                {| world := w; logged_in := true;
                   trace := trace (sent s) |})
      else login srv self s
           = (Returns false,
              after (Log error (LoginFailed (status_code resp) (text resp)))
                (sent (in_world w s)))
  | (Fails t, w) =>
      login srv self s
      = (Returns false,
         after (Log error (LoginConnectionError (RequestException t)))
           (sent (in_world w s)))
  end.
Proof.
  intros sent. unfold login, try_except, bind, request.
  destruct (on_login srv (username self) (password self) (world s))
    as [[resp | t] w]; simpl.
  - destruct ((status_code resp =? 200)%Z && pystr_eqb (text resp) (lit "Ok."));
      reflexivity.
  - reflexivity.
Qed.

End LoginFacts.

(** X7.  [login] never raises: a transport error is caught and reported
    as failure.  It sends one request.  It returns true exactly when the
    server answers 200 with the body [Ok.], and only then does it set the
    adapter's flag; otherwise the flag is left as it was. *)
Theorem login_reports_and_never_raises (W : Type) (srv : server W)
    (self : QBittorrentClient) (s : state W) :
  exists ok s',
    login srv self s = (Returns ok, s') /\
    (ok = true -> logged_in s' = true) /\
    (ok = false -> logged_in s' = logged_in s) /\
    filter is_request (trace s')
    = filter is_request (trace s)
      ++ [Request (auth_login (username self) (password self))] /\
    (ok = true <->
     exists resp w,
       on_login srv (username self) (password self) (world s)
         = (Answers resp, w) /\
       status_code resp = 200%Z /\ text resp = lit "Ok.").
Proof.
  pose proof (login_run srv self s) as H. cbv zeta in H.
  destruct (on_login srv (username self) (password self) (world s))
    as [[resp | t] w].
  - destruct ((status_code resp =? 200)%Z && pystr_eqb (text resp) (lit "Ok."))
      eqn:E.
    + rewrite H. do 2 eexists. split; [reflexivity |]. simpl.
      repeat split; try congruence.
      * rewrite !filter_app. simpl. now rewrite app_nil_r.
      * intros _. apply andb_true_iff in E. destruct E as [E1 E2].
        apply Z.eqb_eq in E1. apply pystr_eqb_eq in E2. now exists resp, w.
    + rewrite H. do 2 eexists. split; [reflexivity |]. simpl.
      repeat split; try congruence.
      * rewrite !filter_app. simpl. now rewrite app_nil_r.
      * intros [resp' [w' [Heq [H1 H2]]]]. injection Heq as <- <-.
        apply Z.eqb_eq in H1. apply pystr_eqb_eq in H2.
        rewrite H1, H2 in E. discriminate.
  - rewrite H. do 2 eexists. split; [reflexivity |]. simpl.
    repeat split; try congruence.
    + rewrite !filter_app. simpl. now rewrite app_nil_r.
    + intros [resp' [w' [Heq _]]]. discriminate.
Qed.

Section CatalogueFacts.
Context {rt : Runtime}.
Variable W : Type.
Variable srv : server W.

(** What [get_torrent] does, by the answer of the catalogue *)
Lemma get_torrent_run (self : GazelleGamesAPI) (hash : pystr) (s : state W) :
  let h := upper hash in
  let asked := after (Request (gazelle_torrent (api_key self) h))
                 (after (Log info (Querying h)) (after (Sleep 2) s)) in
  match on_gazelle srv (api_key self) h (world s) with
  | (Fails t, w) =>
      get_torrent srv self (Some hash) s
      = (Returns None,
         after (Log error (QueryException (Some h) (RequestException t)))
           (in_world w asked))
  | (Answers resp, w) =>
      let heard := after (Log info (ApiResponse (status_code resp)
                                      (List.length (text resp))))
                     (in_world w asked) in
      if (status_code resp =? 200)%Z then
        match json resp with
        | None =>
            get_torrent srv self (Some hash) s
            = (Returns None,
               after (Log error (ResponseText (firstn 200 (text resp))))
                 (after (Log error (JsonDecodeError h JSONDecodeError)) heard))
        | Some data =>
            if match env_status data with
               | Some st => pystr_eqb st (lit "success")
               | None => false
               end
            then get_torrent srv self (Some hash) s
                 = (Returns (Some (get (env_response data) empty_api)),
                    after (Log info (DataRetrieved h)) heard)
            else get_torrent srv self (Some hash) s
                 = (Returns None,
                    after (Log error (FullResponse (firstn 500 (text resp))))
                      (after (Log error
                                (ApiError h (get (env_error data)
                                               (lit "Unknown error"))))
                         heard))
        end
      else
        get_torrent srv self (Some hash) s
        = (Returns None,
           after (Log error (ResponseText (firstn 200 (text resp))))
             (after (Log error ResponseHeaders)
                (after (Log error (HttpError (status_code resp) h)) heard)))
  end.
Proof.
  intros h asked.
  unfold get_torrent, read_response, try_except, bind, request, sleep, log,
    emit, json_of, ret, raise.
  simpl. fold h.
  destruct (on_gazelle srv (api_key self) h (world s)) as [[resp | t] w]; simpl.
  - destruct (status_code resp =? 200)%Z; simpl.
    + destruct (json resp) as [data |]; simpl.
      * destruct (match env_status data with
                  | Some st => pystr_eqb st (lit "success")
                  | None => false
                  end); reflexivity.
      * reflexivity.
    + reflexivity.
  - reflexivity.
Qed.

Lemma get_torrent_without_hash (self : GazelleGamesAPI) (s : state W) :
  get_torrent srv self None s
  = (Returns None,
     after (Log error (QueryException None AttributeError)) (after (Sleep 2) s)).
Proof. reflexivity. Qed.

End CatalogueFacts.

(** X8.  The catalogue client never raises.  Every call pauses two
    seconds before anything else and sends one request at most.  A hash
    that is [None] ends in the result [None] with no request sent; a
    transport error ends in the result [None], and the last record of
    the log is the exception; an answer whose status is not 200, or
    whose body is not JSON, ends in the result [None]. *)
Theorem get_torrent_pauses_and_never_raises (rt : Runtime) (W : Type)
    (srv : server W) (self : GazelleGamesAPI) (hash : option pystr)
    (s : state W) :
  exists data s' rest,
    get_torrent srv self hash s = (Returns data, s') /\
    trace s' = trace s ++ Sleep 2 :: rest /\
    (count is_request rest <= 1)%nat /\
    (hash = None -> data = None /\ count is_request rest = 0%nat) /\
    (forall h t w,
       hash = Some h ->
       on_gazelle srv (api_key self) (upper h) (world s) = (Fails t, w) ->
       data = None /\
       exists earlier,
         rest = earlier ++ [Log error (QueryException (Some (upper h))
                                         (RequestException t))]) /\
    (forall h resp w,
       hash = Some h ->
       on_gazelle srv (api_key self) (upper h) (world s) = (Answers resp, w) ->
       status_code resp <> 200%Z \/ json resp = None ->
       data = None).
Proof.
  destruct hash as [hash |].
  - pose proof (get_torrent_run srv self hash s) as H. cbv zeta in H.
    destruct (on_gazelle srv (api_key self) (upper hash) (world s))
      as [[resp | t] w] eqn:Hanswer.
    + assert (Hfails : forall (data : option api_dict) (rest : list event) h t' w',
                Some hash = Some h ->
                on_gazelle srv (api_key self) (upper h) (world s) = (Fails t', w') ->
                data = None /\
                exists earlier,
                  rest = earlier ++ [Log error (QueryException (Some (upper h))
                                                  (RequestException t'))]).
      { intros data rest h t' w' Hh Hg. injection Hh as <-.
        rewrite Hanswer in Hg. discriminate. }
      destruct (status_code resp =? 200)%Z eqn:Hstatus.
      * destruct (json resp) as [data |] eqn:Hjson.
        -- assert (Hother : forall (d : option api_dict) h resp' w',
                     Some hash = Some h ->
                     on_gazelle srv (api_key self) (upper h) (world s)
                     = (Answers resp', w') ->
                     status_code resp' <> 200%Z \/ json resp' = None ->
                     d = None).
           { intros d h resp' w' Hh Hg Hor. injection Hh as <-.
             rewrite Hanswer in Hg. injection Hg as <- <-.
             apply Z.eqb_eq in Hstatus.
             destruct Hor as [Hne | Hnone]; [contradiction | congruence]. }
           destruct (match env_status data with
                     | Some st => pystr_eqb st (lit "success")
                     | None => false
                     end);
             rewrite H; do 3 eexists; (split; [reflexivity |]); simpl;
             (split; [rewrite <- !app_assoc; simpl; reflexivity |]);
             (split; [cbv; lia |]); (split; [discriminate |]);
             (split; [apply Hfails | apply Hother]).
        -- rewrite H; do 3 eexists; (split; [reflexivity |]); simpl;
             (split; [rewrite <- !app_assoc; simpl; reflexivity |]);
             (split; [cbv; lia |]); (split; [discriminate |]);
             (split; [apply Hfails | reflexivity]).
      * rewrite H; do 3 eexists; (split; [reflexivity |]); simpl;
          (split; [rewrite <- !app_assoc; simpl; reflexivity |]);
          (split; [cbv; lia |]); (split; [discriminate |]);
          (split; [apply Hfails | reflexivity]).
    + rewrite H; do 3 eexists; (split; [reflexivity |]); simpl;
        (split; [rewrite <- !app_assoc; simpl; reflexivity |]);
        (split; [cbv; lia |]); (split; [discriminate |]).
      split; [| reflexivity].
      intros h t' w' Hh Hg. injection Hh as <-.
      rewrite Hanswer in Hg. injection Hg as <- <-.
      split; [reflexivity |].
      now exists [ Log info (Querying (upper hash));
                   Request (gazelle_torrent (api_key self) (upper hash)) ].
  - rewrite get_torrent_without_hash. do 3 eexists. split; [reflexivity |].
    simpl. split; [rewrite <- !app_assoc; simpl; reflexivity |].
    split; [cbv; lia |]. split; [intros _; split; reflexivity |].
    split; discriminate.
Qed.


(* ================================================================== *)
(** * Further properties: assignments, the loop and the start of main *)
(* ================================================================== *)

(** X10.  Whatever the server does, answers or not, one call of
    [set_torrent_category] sends two assignment requests at most and one
    creation request at most, and no request of another kind. *)
Theorem set_torrent_category_is_bounded (W : Type) (srv : server W)
    (self : QBittorrentClient) (hash : option pystr) (category : pystr)
    (s : state W) :
  exists added,
    trace (snd (set_torrent_category srv self hash category s))
      = trace s ++ added /\
    (count is_set_category added <= 2)%nat /\
    (count is_create_category added <= 1)%nat /\
    count is_request added
      = (count is_set_category added + count is_create_category added)%nat.
Proof.
  destruct s as [w authenticated tr].
  unfold set_torrent_category, client_create_category, bind, get_logged_in,
    request, log, emit, ret.
  simpl. destruct authenticated; simpl.
  - destruct (on_setCategory srv hash category w) as [[r1 | t1] w1]; simpl.
    + destruct (status_code r1 =? 409)%Z; simpl.
      * destruct (on_createCategory srv category [] w1) as [[r2 | t2] w2]; simpl.
        -- destruct (status_code r2 =? 200)%Z; simpl.
           ++ destruct (on_setCategory srv hash category w2) as [[r3 | t3] w3];
                simpl; eexists;
                (split; [rewrite <- ?app_assoc; simpl; reflexivity |]);
                cbv; lia.
           ++ eexists; (split; [rewrite <- ?app_assoc; simpl; reflexivity |]);
                cbv; lia.
        -- eexists; (split; [rewrite <- ?app_assoc; simpl; reflexivity |]);
             cbv; lia.
      * eexists; (split; [reflexivity |]); cbv; lia.
    + eexists; (split; [reflexivity |]); cbv; lia.
  - exists []. split; [now rewrite app_nil_r | cbv; lia].
Qed.

Section LoopFacts.
Context {rt : Runtime}.
Variable W : Type.
Variable srv : server W.

Lemma bumps_ret (n : nat) : bumps n (ret (W:=W) n).
Proof. intros s. simpl. lia. Qed.

Lemma bumps_ret_next (n : nat) : bumps n (ret (W:=W) (n + 1)%nat).
Proof. intros s. simpl. lia. Qed.

Lemma bumps_bind (A : Type) (n : nat) (m : M W A) (k : A -> M W nat) :
  (forall a, bumps n (k a)) -> bumps n (bind m k).
Proof.
  intros Hk s. unfold bind. destruct (m s) as [[a | e] s1]; [apply Hk | exact I].
Qed.

Lemma bumps_try_except (n : nat) (caught : exn -> bool) (body : M W nat)
    (handler : exn -> M W nat) :
  bumps n body -> (forall e, bumps n (handler e)) ->
  bumps n (try_except caught body handler).
Proof.
  intros Hb Hh s. unfold try_except. specialize (Hb s).
  destruct (body s) as [[k | e] s1]; [exact Hb |].
  destruct (caught e); [apply Hh | exact I].
Qed.

Lemma categorise_bumps qb_client name hash_id api_data n :
  bumps n (categorise srv qb_client name hash_id api_data n).
Proof.
  unfold categorise. apply bumps_try_except.
  - destruct (negb (truthy_str (create_category api_data hash_id))).
    + apply bumps_bind. intros _. apply bumps_ret.
    + apply bumps_bind. intros _. apply bumps_bind. intros [|].
      * apply bumps_bind. intros _. apply bumps_bind. intros tagged.
        apply bumps_bind. intros _. apply bumps_ret_next.
      * apply bumps_bind. intros _. apply bumps_ret.
  - intros e. apply bumps_bind. intros _. apply bumps_bind. intros _.
    apply bumps_ret.
Qed.

Lemma process_bumps qb_client ggn_client torrent n :
  bumps n (process srv qb_client ggn_client torrent n).
Proof.
  unfold process. apply bumps_bind. intros trackers.
  destruct (is_gazelle_games_tracker trackers); [| apply bumps_ret].
  apply bumps_bind. intros _. apply bumps_bind. intros _.
  apply bumps_bind. intros api_data.
  destruct (negb (truthy_data api_data)).
  - apply bumps_bind. intros _. apply bumps_ret.
  - apply categorise_bumps.
Qed.

End LoopFacts.

(** X12.  The count the loop returns never goes down and grows by one
    per torrent at most: after a list of torrents it lies between the
    count it started from and that count plus the length of the list. *)
Theorem count_is_bounded_by_the_list (rt : Runtime) (W : Type)
    (srv : server W) (qb_client : QBittorrentClient)
    (ggn_client : GazelleGamesAPI) (torrents : list torrent) (n : nat)
    (s : state W) (m : nat) (s' : state W) :
  for_each srv qb_client ggn_client torrents n s = (Returns m, s') ->
  (n <= m <= n + List.length torrents)%nat.
Proof.
  revert n s. induction torrents as [| torrent rest IH]; intros n s H.
  - simpl in H. unfold ret in H. injection H as <- _. simpl. lia.
  - simpl in H. unfold bind in H.
    pose proof (process_bumps srv qb_client ggn_client torrent n s) as Hb.
    destruct (process srv qb_client ggn_client torrent n s) as [[k | e] s1];
      [| discriminate].
    apply IH in H. simpl. lia.
Qed.

(** X12, at a list of two torrents that are both sorted *)
Lemma two_torrents_count_two :
  let run := for_each (rt:=ascii_runtime) (demo_server [] NoFault) demo_client
               demo_catalogue [item "ab12" "Foo" ""; item "cd34" "Bar" ""] 0
               (start [] true) in
  fst run = Returns 2%nat /\ (0 <= 2 <= 0 + 2)%nat.
Proof.
  intros run. split; [reflexivity |].
  exact (count_is_bounded_by_the_list ascii_runtime
           (demo_server [] NoFault) demo_client demo_catalogue
           [item "ab12" "Foo" ""; item "cd34" "Bar" ""] 0 (start [] true)
           (m:=2) (s':=snd run) eq_refl).
Defined.

(** X13.  With one of the four settings missing or empty, [main] logs
    the configuration error and does nothing else: no request is sent
    and the adapter is not touched. *)
Theorem missing_setting_stops_main (rt : Runtime) (W : Type) (srv : server W)
    (env : environ) (s : state W) :
  truthy_str (QB_HOST env) = false \/ truthy_str (QB_USERNAME env) = false \/
  truthy_str (QB_PASSWORD env) = false \/ truthy_str (GGN_API_KEY env) = false ->
  main srv env s = (Returns tt, after (Log error MissingConfiguration) s).
Proof.
  intros H. unfold main.
  destruct (truthy_str (QB_HOST env)), (truthy_str (QB_USERNAME env)),
    (truthy_str (QB_PASSWORD env)), (truthy_str (GGN_API_KEY env));
    simpl; try reflexivity.
  destruct H as [H | [H | [H | H]]]; discriminate.
Qed.

(** X13, at an environment whose password is empty *)
Lemma empty_password_stops_main :
  main (rt:=ascii_runtime) (demo_server [] NoFault)
    {| QB_HOST := Some (lit "http://localhost:8080");
       QB_USERNAME := Some (lit "admin");
       QB_PASSWORD := Some [];
       GGN_API_KEY := Some (lit "0123456789") |}
    (start [] false)
  = (Returns tt,
     {| world := []; logged_in := false;
        trace := [Log error MissingConfiguration] |}).
Proof.
  exact (missing_setting_stops_main ascii_runtime (demo_server [] NoFault)
           {| QB_HOST := Some (lit "http://localhost:8080");
              QB_USERNAME := Some (lit "admin");
              QB_PASSWORD := Some [];
              GGN_API_KEY := Some (lit "0123456789") |}
           (start [] false) (or_intror (or_intror (or_introl eq_refl)))).
Defined.

(** X14.  When the login is not acknowledged, by an answer other than
    200 with the body [Ok.] or by no answer at all, [main] reports the
    failed login and returns: the login is the only request it has sent,
    and the adapter stays unauthenticated. *)
Theorem unacknowledged_login_stops_main (rt : Runtime) (W : Type)
    (srv : server W) (env : environ) (s : state W) :
  truthy_str (QB_HOST env) = true -> truthy_str (QB_USERNAME env) = true ->
  truthy_str (QB_PASSWORD env) = true -> truthy_str (GGN_API_KEY env) = true ->
  let user := get (QB_USERNAME env) [] in
  let pass := get (QB_PASSWORD env) [] in
  (forall resp w,
     on_login srv user pass (world s) = (Answers resp, w) ->
     status_code resp = 200%Z -> text resp = lit "Ok." -> False) ->
  exists s',
    main srv env s = (Returns tt, s') /\
    logged_in s' = false /\
    filter is_request (trace s')
      = filter is_request (trace s) ++ [Request (auth_login user pass)] /\
    exists earlier, trace s' = earlier ++ [Log error LoginToClientFailed].
Proof.
  intros H1 H2 H3 H4 user pass Hno. subst user pass.
  unfold main. rewrite H1, H2, H3, H4. cbv zeta. cbn [negb andb].
  unfold bind at 1, set_logged_in at 1.
  unfold bind at 1, log at 1, emit at 1.
  unfold bind at 1, log at 1, emit at 1.
  unfold bind at 1.
  cbn [world logged_in trace api_key].
  match goal with
  | |- context [login srv ?qb ?s0] =>
      pose proof (login_run srv qb s0) as Hrun
  end.
  cbv zeta in Hrun. cbn [world username password] in Hrun.
  destruct (on_login srv (get (QB_USERNAME env) []) (get (QB_PASSWORD env) [])
              (world s)) as [[resp | t] w] eqn:Hanswer.
  - destruct ((status_code resp =? 200)%Z && pystr_eqb (text resp) (lit "Ok."))
      eqn:E.
    + exfalso. apply andb_true_iff in E. destruct E as [E1 E2].
      apply Z.eqb_eq in E1. apply pystr_eqb_eq in E2.
      exact (Hno resp w eq_refl E1 E2).
    + rewrite Hrun. cbn [negb]. unfold log, emit. eexists.
      split; [reflexivity |]. cbn [after in_world world logged_in trace].
      split; [reflexivity |]. split.
      * rewrite !filter_app. simpl. now rewrite !app_nil_r.
      * eexists. reflexivity.
  - rewrite Hrun. cbn [negb]. unfold log, emit. eexists.
    split; [reflexivity |]. cbn [after in_world world logged_in trace].
    split; [reflexivity |]. split.
    + rewrite !filter_app. simpl. now rewrite !app_nil_r.
    + eexists. reflexivity.
Qed.

(** X14, at a server that refuses the login *)
Lemma refused_login_stops_main :
  exists s',
    main (rt:=ascii_runtime) closed_server demo_environ (start [] false)
      = (Returns tt, s') /\
    logged_in s' = false /\
    filter is_request (trace s')
      = [Request (auth_login (lit "admin") (lit "secret"))] /\
    exists earlier, trace s' = earlier ++ [Log error LoginToClientFailed].
Proof.
  refine (unacknowledged_login_stops_main ascii_runtime closed_server
            demo_environ (start [] false) eq_refl eq_refl eq_refl eq_refl _).
  intros resp w Hanswer Hstatus _. simpl in Hanswer.
  injection Hanswer as <- _. discriminate.
Defined.

Section TagFacts.
Variable W : Type.

Lemma same_add_tags_refl (s : state W) : same_add_tags s s.
Proof. reflexivity. Qed.

Lemma same_add_tags_trans (a b c : state W) :
  same_add_tags a b -> same_add_tags b c -> same_add_tags a c.
Proof. unfold same_add_tags. congruence. Qed.

Lemma same_add_tags_after (ev : event) (s : state W) :
  negb (is_add_tags ev) = true -> same_add_tags s (after ev s).
Proof.
  intros H. apply negb_true_iff in H. unfold same_add_tags, after.
  cbn [trace]. rewrite count_app.
  assert (Hzero : count is_add_tags [ev] = 0%nat).
  { unfold count. cbn [filter]. now rewrite H. }
  rewrite Hzero. lia.
Qed.

Lemma same_add_tags_world (w : W) (s : state W) :
  same_add_tags s (in_world w s).
Proof. reflexivity. Qed.

End TagFacts.

Ltac untagged :=
  match goal with
  | |- @keeps ?W _ _ _ =>
      repeat keeps_step (@same_add_tags_refl W) (@same_add_tags_trans W)
                        (@same_add_tags_after W) (@same_add_tags_world W)
  end;
  try reflexivity.

Section UntaggedFacts.
Context {rt : Runtime}.
Variable W : Type.
Variable srv : server W.

Lemma set_torrent_category_untagged self hash category :
  keeps (@same_add_tags W) (set_torrent_category srv self hash category).
Proof. unfold set_torrent_category, client_create_category. untagged. Qed.

Lemma report_no_category_untagged name api_data :
  keeps (@same_add_tags W) (report_no_category (W:=W) name api_data).
Proof. unfold report_no_category. untagged. Qed.

Lemma get_torrent_untagged self hash :
  keeps (@same_add_tags W) (get_torrent srv self hash).
Proof. unfold get_torrent, read_response. untagged. Qed.

Lemma get_torrent_trackers_untagged self hash :
  keeps (@same_add_tags W) (get_torrent_trackers srv self hash).
Proof. unfold get_torrent_trackers. untagged. Qed.

End UntaggedFacts.

(** X15.  A torrent is tagged as sorted only after its category has been
    set: when no category is derived, or the assignment does not return
    true (it reports failure or raises), the [try] statement sends no
    tagging request. *)
Theorem no_tag_without_category (rt : Runtime) (W : Type) (srv : server W)
    (qb_client : QBittorrentClient) (name : pystr) (hash_id : option pystr)
    (api_data : option api_dict) (n : nat) (s : state W) :
  (forall category,
     create_category api_data hash_id = Some category ->
     fst (set_torrent_category srv qb_client hash_id category
            (after (Log info (CategoryDerived category)) s))
     <> Returns true) ->
  count is_add_tags
    (trace (snd (categorise srv qb_client name hash_id api_data n s)))
  = count is_add_tags (trace s).
Proof.
  intros Hno. change (same_add_tags s
    (snd (categorise srv qb_client name hash_id api_data n s))).
  unfold categorise, try_except.
  destruct (create_category api_data hash_id) as [category |] eqn:Hcategory.
  - specialize (Hno category eq_refl). cbn [truthy_str get].
    destruct (nonempty category); cbn [negb].
    + unfold bind at 1, log at 1, emit at 1.
      fold (after (Log info (CategoryDerived category)) s).
      unfold bind at 1.
      pose proof (set_torrent_category_untagged srv qb_client hash_id category
                    (after (Log info (CategoryDerived category)) s)) as Hset.
      destruct (set_torrent_category srv qb_client hash_id category
                  (after (Log info (CategoryDerived category)) s))
        as [[[|] | e] s1]; cbn [fst snd] in *.
      * congruence.
      * unfold bind, log, emit, ret. cbn [snd].
        eapply same_add_tags_trans; [| apply same_add_tags_after; reflexivity].
        eapply same_add_tags_trans; [| exact Hset].
        now apply same_add_tags_after.
      * unfold is_exception, bind, log, emit, ret. cbn [snd].
        eapply same_add_tags_trans; [| apply same_add_tags_after; reflexivity].
        eapply same_add_tags_trans; [| apply same_add_tags_after; reflexivity].
        eapply same_add_tags_trans; [| exact Hset].
        now apply same_add_tags_after.
    + unfold bind at 1.
      pose proof (report_no_category_untagged (W:=W) name api_data s) as Hrep.
      destruct (report_no_category name api_data s) as [[[] | e] s1];
        cbn [snd] in *.
      * exact Hrep.
      * unfold is_exception, bind, log, emit, ret. cbn [snd].
        eapply same_add_tags_trans; [| apply same_add_tags_after; reflexivity].
        eapply same_add_tags_trans; [| apply same_add_tags_after; reflexivity].
        exact Hrep.
  - cbn [truthy_str negb]. unfold bind at 1.
    pose proof (report_no_category_untagged (W:=W) name api_data s) as Hrep.
    destruct (report_no_category name api_data s) as [[[] | e] s1];
      cbn [snd] in *.
    + exact Hrep.
    + unfold is_exception, bind, log, emit, ret. cbn [snd].
      eapply same_add_tags_trans; [| apply same_add_tags_after; reflexivity].
      eapply same_add_tags_trans; [| apply same_add_tags_after; reflexivity].
      exact Hrep.
Qed.

(** X15, at a torrent whose category cannot be created *)
Lemma refused_category_is_not_tagged :
  count is_add_tags
    (trace (snd (categorise (rt:=ascii_runtime) (demo_server [] CreateRefused)
                   demo_client (lit "Foo") (Some (lit "ab12"))
                   (Some (game (lit "PlayStation 4") (lit "Foo") (Int 2019)))
                   0 (start [] true))))
  = 0%nat.
Proof.
  refine (no_tag_without_category ascii_runtime (demo_server [] CreateRefused)
            demo_client (lit "Foo") (Some (lit "ab12"))
            (Some (game (lit "PlayStation 4") (lit "Foo") (Int 2019)))
            0 (start [] true) _).
  intros category Hcategory. vm_compute in Hcategory.
  injection Hcategory as <-. vm_compute. discriminate.
Defined.

Section PaceFacts.
Variable W : Type.

Lemma paced_refl (s : state W) : paced s s.
Proof. unfold paced. lia. Qed.

Lemma paced_trans (a b c : state W) : paced a b -> paced b c -> paced a c.
Proof. unfold paced. lia. Qed.

Lemma paced_after (ev : event) (s : state W) :
  negb (is_catalogue_request ev) = true -> paced s (after ev s).
Proof.
  intros H. apply negb_true_iff in H. unfold paced, after. cbn [trace].
  rewrite !count_app.
  assert (Hzero : count is_catalogue_request [ev] = 0%nat).
  { unfold count. cbn [filter]. now rewrite H. }
  rewrite Hzero. lia.
Qed.

Lemma paced_world (w : W) (s : state W) : paced s (in_world w s).
Proof. unfold paced, in_world. cbn [trace]. lia. Qed.

Lemma set_logged_in_paced (b : bool) : keeps (@paced W) (set_logged_in b).
Proof. intros s. unfold paced, set_logged_in. cbn [snd trace]. lia. Qed.

End PaceFacts.

Ltac pacing :=
  match goal with
  | |- @keeps ?W _ _ _ =>
      repeat keeps_step (@paced_refl W) (@paced_trans W)
                        (@paced_after W) (@paced_world W)
  end;
  try reflexivity.

Section Pace.
Context {rt : Runtime}.
Variable W : Type.
Variable srv : server W.

(** The pause and the request of one call of the catalogue client *)
Lemma get_torrent_paced self hash : keeps (@paced W) (get_torrent srv self hash).
Proof.
  intros s. destruct hash as [hash |].
  - pose proof (get_torrent_run srv self hash s) as H. cbv zeta in H.
    destruct (on_gazelle srv (api_key self) (upper hash) (world s))
      as [[resp | t] w].
    + destruct (status_code resp =? 200)%Z.
      * destruct (json resp) as [data |].
        -- destruct (match env_status data with
                     | Some st => pystr_eqb st (lit "success")
                     | None => false
                     end);
             rewrite H; unfold paced, after, in_world; cbn [snd trace];
             rewrite !count_app; cbv [count filter is_catalogue_request
                                        is_pause List.length]; lia.
        -- rewrite H; unfold paced, after, in_world; cbn [snd trace];
             rewrite !count_app; cbv [count filter is_catalogue_request
                                        is_pause List.length]; lia.
      * rewrite H; unfold paced, after, in_world; cbn [snd trace];
          rewrite !count_app; cbv [count filter is_catalogue_request
                                     is_pause List.length]; lia.
    + rewrite H; unfold paced, after, in_world; cbn [snd trace];
        rewrite !count_app; cbv [count filter is_catalogue_request
                                   is_pause List.length]; lia.
  - rewrite get_torrent_without_hash. unfold paced, after. cbn [snd trace].
    rewrite !count_app.
    cbv [count filter is_catalogue_request is_pause List.length]. lia.
Qed.

Lemma categorise_paced qb_client name hash_id api_data n :
  keeps (@paced W) (categorise srv qb_client name hash_id api_data n).
Proof.
  unfold categorise, report_no_category, set_torrent_category,
    client_create_category, add_torrent_tags.
  pacing.
Qed.

Lemma process_paced qb_client ggn_client torrent n :
  keeps (@paced W) (process srv qb_client ggn_client torrent n).
Proof.
  unfold process, get_torrent_trackers.
  apply (keeps_bind (@paced_trans W)); [pacing |]. intros trackers.
  destruct (is_gazelle_games_tracker trackers); [| pacing].
  apply (keeps_bind (@paced_trans W)); [pacing |]. intros _.
  apply (keeps_bind (@paced_trans W)); [pacing |]. intros _.
  apply (keeps_bind (@paced_trans W)); [apply get_torrent_paced |].
  intros api_data. destruct (negb (truthy_data api_data)); [pacing |].
  apply categorise_paced.
Qed.

Lemma for_each_paced qb_client ggn_client torrents :
  forall n, keeps (@paced W) (for_each srv qb_client ggn_client torrents n).
Proof.
  induction torrents as [| torrent rest IH]; intros n; simpl.
  - pacing.
  - apply (keeps_bind (@paced_trans W)); [apply process_paced | apply IH].
Qed.

End Pace.

(** X16.  Every request to the catalogue has its pause: over a whole
    run of [main], whatever the two services answer and however the run
    ends, the requests sent to the catalogue are no more than the
    two-second pauses made. *)
Theorem catalogue_requests_are_paced (rt : Runtime) (W : Type)
    (srv : server W) (env : environ) (s : state W) :
  (count is_catalogue_request (trace (snd (main srv env s)))
   + count is_pause (trace s)
   <= count is_pause (trace (snd (main srv env s)))
      + count is_catalogue_request (trace s))%nat.
Proof.
  change (paced s (snd (main srv env s))). revert s.
  change (keeps (@paced W) (main srv env)).
  unfold main.
  destruct (negb (truthy_str (QB_HOST env) && truthy_str (QB_USERNAME env)
                  && truthy_str (QB_PASSWORD env)
                  && truthy_str (GGN_API_KEY env))); [pacing |].
  cbv zeta.
  apply (keeps_bind (@paced_trans W)); [apply set_logged_in_paced |]. intros _.
  apply (keeps_bind (@paced_trans W)); [pacing |]. intros _.
  apply (keeps_bind (@paced_trans W)); [pacing |]. intros _.
  apply (keeps_bind (@paced_trans W)).
  { unfold login.
    apply (keeps_try_except (@paced_trans W)); [| intros e; pacing].
    apply (keeps_bind (@paced_trans W)); [pacing |]. intros resp.
    destruct ((status_code resp =? 200)%Z && pystr_eqb (text resp) (lit "Ok."));
      [| pacing].
    apply (keeps_bind (@paced_trans W)); [apply set_logged_in_paced |].
    intros _. pacing. }
  intros ok. destruct (negb ok); [pacing |].
  apply (keeps_bind (@paced_trans W)); [unfold get_categories; pacing |].
  intros categories.
  apply (keeps_bind (@paced_trans W)); [pacing |]. intros _.
  unfold sort_torrents.
  apply (keeps_bind (@paced_trans W)); [unfold get_torrents; pacing |].
  intros torrents. destruct (negb (truthy_list torrents)); [pacing |].
  apply (keeps_bind (@paced_trans W)); [apply for_each_paced | intros m; pacing].
Qed.
